(** * Verification of the distributed caching proxy (proxy node, caches,
    load balancer, node-health registry).

    Shallow embedding of the Python sources under [src/]:
    - [src/proxy/metrics.py]            : [ProxyMetrics]
    - [src/proxy/cache_utils.py]        : [TTLCache], [LRUCache]
    - [src/proxy/proxy_node.py]         : [ProxyNode.handle_connection],
                                          [ProxyNode.fetch_from_origin]
    - [src/load_balancer/node_manager.py]: [NodeManager]
    - [src/load_balancer/load_balancer.py]: [LoadBalancer]

    Python objects that are mutated in place are modelled by explicit state
    passing; a raised exception is a value of [exc] returned together with
    the state reached at the point of the raise (mutations done before the
    raise persist, as in Python). *)

From Stdlib Require Import ZArith QArith Ascii String List Sorting.Sorted Lia.
From stdpp Require Import base gmap list strings pretty.
Import ListNotations.

Set Warnings "-register-all".

Open Scope Z_scope.

(* ------------------------------------------------------------------ *)
(** ** Python values and exceptions *)

(** JSON values as produced by [json.loads] and consumed by [json.dumps].
    Objects keep their key/value pairs in source order. *)
Inductive json : Type :=
| JNull
| JBool (b : bool)
| JInt (z : Z)
| JFloat (q : Q)
| JStr (s : string)
| JList (l : list json)
| JObj (kvs : list (string * json)).

(** Exceptions raised by the modelled code. *)
Inductive exc : Type :=
| KeyError
| TypeError
| ValueError
| ZeroDivisionError
| UnicodeDecodeError
| AttributeError
| IndexError
| OSError.

(** Outcome of a Python call: a returned value or a raised exception. *)
Inductive res (A : Type) : Type :=
| Ret (a : A)
| Raise (e : exc).
Arguments Ret {A} a.
Arguments Raise {A} e.

(** Lookup of a key in a dict built by [json.loads]: when a key occurs
    several times the last occurrence wins. *)
Fixpoint obj_lookup (k : string) (kvs : list (string * json)) : option json :=
  match kvs with
  | [] => None
  | (k', v) :: t =>
      match obj_lookup k t with
      | Some v' => Some v'
      | None => if String.eqb k k' then Some v else None
      end
  end.

(** [x[k]] for a string key [k]: a dict looks the key up ([KeyError] when
    absent); every other JSON value refuses a string subscript
    ([TypeError]). *)
Definition getitem (x : json) (k : string) : res json :=
  match x with
  | JObj kvs => match obj_lookup k kvs with
                | Some v => Ret v
                | None => Raise KeyError
                end
  | _ => Raise TypeError
  end.

(** Python truthiness of a JSON value. *)
Definition truthy (x : json) : bool :=
  match x with
  | JNull => false
  | JBool b => b
  | JInt z => negb (Z.eqb z 0)
  | JFloat q => negb (Qeq_bool q 0)
  | JStr s => negb (String.eqb s "")
  | JList l => negb (Nat.eqb (length l) 0)
  | JObj kvs => negb (Nat.eqb (length kvs) 0)
  end.

(** [x == "s"] for a JSON value [x] and a string literal. *)
Definition json_eq_str (x : json) (s : string) : bool :=
  match x with
  | JStr s' => String.eqb s' s
  | _ => false
  end.

(* ------------------------------------------------------------------ *)
(** ** [ProxyMetrics] (src/proxy/metrics.py) *)

Record ProxyMetrics := mkProxyMetrics {
  total_requests : Z;
  cache_hits : Z;
  cache_misses : Z;
  origin_fetches : Z;
  (** [self.start_time.isoformat()] *)
  start_time : string
}.

Definition metrics_init (iso_now : string) : ProxyMetrics :=
  mkProxyMetrics 0 0 0 0 iso_now.

Definition record_request (m : ProxyMetrics) : ProxyMetrics :=
  {| total_requests := total_requests m + 1; cache_hits := cache_hits m;
     cache_misses := cache_misses m; origin_fetches := origin_fetches m;
     start_time := start_time m |}.

Definition record_hit (m : ProxyMetrics) : ProxyMetrics :=
  {| total_requests := total_requests m; cache_hits := cache_hits m + 1;
     cache_misses := cache_misses m; origin_fetches := origin_fetches m;
     start_time := start_time m |}.

Definition record_miss (m : ProxyMetrics) : ProxyMetrics :=
  {| total_requests := total_requests m; cache_hits := cache_hits m;
     cache_misses := cache_misses m + 1; origin_fetches := origin_fetches m;
     start_time := start_time m |}.

Definition record_origin_fetch (m : ProxyMetrics) : ProxyMetrics :=
  {| total_requests := total_requests m; cache_hits := cache_hits m;
     cache_misses := cache_misses m; origin_fetches := origin_fetches m + 1;
     start_time := start_time m |}.

(** [report]: [hit_rate] is the int [0] when there was no cache access and
    the float [hits / total] (true division) otherwise. *)
Definition report (m : ProxyMetrics) : json :=
  let total := cache_hits m + cache_misses m in
  let hit_rate :=
    if Z.eqb total 0 then JInt 0
    else JFloat (inject_Z (cache_hits m) / inject_Z total)%Q in
  JObj [("start_time", JStr (start_time m));
        ("total_requests", JInt (total_requests m));
        ("hit_rate", hit_rate);
        ("hits", JInt (cache_hits m));
        ("misses", JInt (cache_misses m));
        ("origin_fetches", JInt (origin_fetches m))].

Definition json_keys (x : json) : list string :=
  match x with
  | JObj kvs => map fst kvs
  | _ => []
  end.

(** The key list of the snapshot named by the spec. *)
Definition spec_report_keys : list string :=
  ["total_requests"; "cache_hits"; "cache_misses"; "origin_fetches";
   "hit_rate"; "start_time"].

(** A fresh metrics counter, used for concrete checks. *)
Definition metrics_fresh : ProxyMetrics := metrics_init "2026-01-01T00:00:00".

(* ------------------------------------------------------------------ *)
(** ** Python string helpers *)

Infix "+s+" := String.append (at level 60, right associativity).

(** ["\n"] *)
Definition newline : string := String (Ascii.ascii_of_nat 10) EmptyString.

(** [str.isspace] restricted to the ASCII range: \t \n \x0b \x0c \r,
    \x1c-\x1f and the space. *)
Definition is_py_space (a : Ascii.ascii) : bool :=
  let n := Ascii.nat_of_ascii a in
  (Nat.leb 9 n && Nat.leb n 13) || (Nat.leb 28 n && Nat.leb n 32).

Fixpoint lstrip (s : string) : string :=
  match s with
  | EmptyString => EmptyString
  | String a t => if is_py_space a then lstrip t else s
  end.

Definition rstrip (s : string) : string :=
  string_of_list_ascii
    (rev (list_ascii_of_string (lstrip (string_of_list_ascii
       (rev (list_ascii_of_string s)))))).

(** [s.strip()] *)
Definition strip (s : string) : string := rstrip (lstrip s).

(** [s.split(c)] for a one-character separator: splits at every
    occurrence. *)
Fixpoint split_all (c : Ascii.ascii) (s : string) : list string :=
  match s with
  | EmptyString => [EmptyString]
  | String a t =>
      if Ascii.eqb a c then EmptyString :: split_all c t
      else match split_all c t with
           | h :: r => String a h :: r
           | [] => [String a EmptyString]
           end
  end.

(** [s.split(c, 1)]: at most one split, at the first occurrence. *)
Fixpoint split_once (c : Ascii.ascii) (s : string) : list string :=
  match s with
  | EmptyString => [EmptyString]
  | String a t =>
      if Ascii.eqb a c then [EmptyString; t]
      else match split_once c t with
           | h :: r => String a h :: r
           | [] => [String a EmptyString]
           end
  end.

(** [x, y = lst]: unpacking into two names raises [ValueError] unless the
    list has exactly two elements. *)
Definition unpack2 (l : list string) : res (string * string) :=
  match l with
  | [x; y] => Ret (x, y)
  | _ => Raise ValueError
  end.

(* ------------------------------------------------------------------ *)
(** ** [TTLCache] (src/proxy/cache_utils.py)

    Time is an integer number of microseconds ([datetime] resolution);
    [timedelta(seconds = ttl)] is [ttl * 10^6] of them.  The lock only
    serialises calls, so each call is one atomic step. *)

Record TTLCache := mkTTLCache {
  ttl_store : gmap string (json * Z);
  ttl : Z
}.

Definition usec_per_sec : Z := 1000000.

Definition ttl_init (t : Z) : TTLCache := mkTTLCache ∅ t.

(** [delete]: [self.store.pop(key, None)] *)
Definition ttl_delete (key : string) (c : TTLCache) : TTLCache :=
  mkTTLCache (delete key (ttl_store c)) (ttl c).

(** [get] at wall-clock time [now]; [None] is [JNull]. *)
Definition ttl_get (now : Z) (key : string) (c : TTLCache)
  : (json * bool) * TTLCache :=
  match ttl_store c !! key with
  | None => ((JNull, false), c)
  | Some (value, exp) =>
      if Z.ltb exp now then ((JNull, false), ttl_delete key c)
      else ((value, true), c)
  end.

(** [set] at wall-clock time [now]. *)
Definition ttl_set (now : Z) (key : string) (value : json) (c : TTLCache)
  : TTLCache :=
  mkTTLCache (<[key := (value, now + ttl c * usec_per_sec)]> (ttl_store c))
             (ttl c).

(** [size]: [len(self.store)] *)
Definition ttl_size (c : TTLCache) : nat := size (ttl_store c).

(* ------------------------------------------------------------------ *)
(** ** [LRUCache] (src/proxy/cache_utils.py)

    The doubly linked list between the sentinels [head] and [tail] is the
    list [lru_list] read from [head.next] to [tail.prev]; the dict [store]
    maps a key to its node.  A node is its key and its value; the only
    in-place update of a node ([node.value = value]) is immediately
    followed by unlinking it, so the updated node is what is linked
    again. *)

Record node := mkNode { nkey : string; nvalue : json }.

Record LRUCache := mkLRUCache {
  lru_store : gmap string node;
  lru_list : list node;
  capacity : Z
}.

Definition lru_init (cap : Z) : LRUCache := mkLRUCache ∅ [] cap.

(** Unlinking [node]: [node.prev.next = node.next; node.next.prev = ...]. *)
Fixpoint unlink (k : string) (l : list node) : list node :=
  match l with
  | [] => []
  | n :: t => if String.eqb (nkey n) k then t else n :: unlink k t
  end.

(** [_delete(node)]: unlink, then [self.store.pop(node.key)], which raises
    [KeyError] when the key is absent (after the unlink took place). *)
Definition lru_delete (n : node) (c : LRUCache) : LRUCache * res unit :=
  let c1 := mkLRUCache (lru_store c) (unlink (nkey n) (lru_list c)) (capacity c) in
  match lru_store c !! nkey n with
  | Some _ => (mkLRUCache (delete (nkey n) (lru_store c1)) (lru_list c1)
                          (capacity c), Ret tt)
  | None => (c1, Raise KeyError)
  end.

(** [_add_to_end(node)]; the [tail.prev is None] guard can not fire on a
    list between two sentinels. *)
Definition lru_add_to_end (n : node) (c : LRUCache) : LRUCache :=
  mkLRUCache (lru_store c) (lru_list c ++ [n]) (capacity c).

Definition lru_store_insert (k : string) (n : node) (c : LRUCache) : LRUCache :=
  mkLRUCache (<[k := n]> (lru_store c)) (lru_list c) (capacity c).

Definition lru_size (c : LRUCache) : nat := size (lru_store c).

Definition lru_get (key : string) (c : LRUCache) : LRUCache * res (json * bool) :=
  match lru_store c !! key with
  | None => (c, Ret (JNull, false))
  | Some n =>
      match lru_delete n c with
      | (c1, Raise e) => (c1, Raise e)
      | (c1, Ret _) =>
          (lru_store_insert key n (lru_add_to_end n c1), Ret (nvalue n, true))
      end
  end.

Definition lru_set (key : string) (value : json) (c : LRUCache)
  : LRUCache * res unit :=
  let '(c1, r) :=
    match lru_store c !! key with
    | Some n => lru_delete (mkNode (nkey n) value) c
    | None => (c, Ret tt)
    end in
  let n' := match lru_store c !! key with
            | Some n => mkNode (nkey n) value
            | None => mkNode key value
            end in
  match r with
  | Raise e => (c1, Raise e)
  | Ret _ =>
      let c2 := lru_store_insert key n' (lru_add_to_end n' c1) in
      if Z.ltb (capacity c2) (Z.of_nat (lru_size c2)) then
        match lru_list c2 with
        | node_to_delete :: _ => lru_delete node_to_delete c2
        (* [head.next] is then the [tail] sentinel, whose [next] is [None] *)
        | [] => (c2, Raise AttributeError)
        end
      else (c2, Ret tt)
  end.

(* ------------------------------------------------------------------ *)
(** ** [ProxyNode] (src/proxy/proxy_node.py) *)

(** The cache engine chosen at start-up ([cache_type] "ttl" or "lru"). *)
Inductive cache : Type :=
| CacheTTL (c : TTLCache)
| CacheLRU (c : LRUCache).

(** [self.cache.get(key)] at time [now] (the LRU engine ignores time). *)
Definition cache_get (now : Z) (key : string) (c : cache)
  : cache * res (json * bool) :=
  match c with
  | CacheTTL t => let '(r, t') := ttl_get now key t in (CacheTTL t', Ret r)
  | CacheLRU l => let '(l', r) := lru_get key l in (CacheLRU l', r)
  end.

(** [self.cache.set(key, value)] at time [now]. *)
Definition cache_set (now : Z) (key : string) (value : json) (c : cache)
  : cache * res unit :=
  match c with
  | CacheTTL t => (CacheTTL (ttl_set now key value t), Ret tt)
  | CacheLRU l => let '(l', r) := lru_set key value l in (CacheLRU l', r)
  end.

Record ProxyNode := mkProxyNode {
  pn_port : Z;
  pn_cache : cache;
  pn_metrics : ProxyMetrics
}.

(** What the origin connection yields: [connect] fails, [sendall] or
    [readline] raises, or [readline] returns a line ([""] at end of
    stream). *)
Inductive origin_reply : Type :=
| OConnectFail
| OIOError
| OReadLine (line : string).

(** What [conn.recv(1024)] yields: no bytes, bytes that are not UTF-8, or
    bytes decoding to a text. *)
Inductive recv_data : Type :=
| RecvEmpty
| RecvBadUtf8
| RecvText (s : string).

(** Observable effects of a connection handler, in program order. *)
Inductive pn_event : Type :=
| EvRecordRequest
| EvRecordHit
| EvRecordMiss
| EvRecordOriginFetch
| EvCacheGet (key : string)
| EvCacheSet (key : string)
| EvOriginFetch (key : string)
| EvSend (msg : string).

Section ProxyNodeCode.

(** The standard library's [json.loads] ([inl msg] when it raises, with
    [msg] the text of the exception) and [json.dumps], and [str(e)] of an
    exception. *)
Variable json_loads : string -> string + json.
Variable json_dumps : json -> string.
Variable exc_str : exc -> string.

(** [fetch_from_origin(cache_key)]; the [finally] block only closes the
    sockets. *)
Definition fetch_from_origin (reply : origin_reply) : res (json * string) :=
  match reply with
  | OConnectFail => Ret (JNull, "ORIGIN_FAILURE")
  | OIOError => Raise OSError
  | OReadLine first_line =>
      if String.eqb first_line "" then Ret (JNull, "ORIGIN_FAILURE")
      else
        match json_loads (strip first_line) with
        | inl _ => Ret (JNull, "ORIGIN_FAILURE")
        | inr r =>
            match getitem r "status" with
            | Raise e => Raise e
            | Ret st =>
                if json_eq_str st "OK" then
                  match getitem r "data" with
                  | Raise e => Raise e
                  | Ret d => Ret (d, "OK")
                  end
                else if json_eq_str st "NOT_FOUND" then Ret (JNull, "NOT_FOUND")
                else Ret (JNull, "ORIGIN_FAILURE")
            end
        end
  end.

(** [build_response(status, data, cache_hit)] *)
Definition build_response (p : ProxyNode) (status : string) (data : json)
  (cache_hit : bool) : string :=
  json_dumps (JObj [("status", JStr status); ("data", data);
                    ("cache_hit", JBool cache_hit); ("node", JInt (pn_port p))])
  +s+ newline.

(** [build_cache_key(resource, key)] *)
Definition build_cache_key (resource key : string) : string :=
  resource +s+ "/" +s+ key.

(** The [try] block of [handle_connection]: either the request is fully
    answered inside it ([inl msg]: METRICS, WRONG_METHOD, or BAD_REQUEST
    from the [except] clause), or it yields [(resource, key)]. *)
Definition parse_request (p : ProxyNode) (raw : recv_data)
  : string + (string * string) :=
  let bad e := inl (build_response p "BAD_REQUEST" (JStr (exc_str e)) false) in
  match raw with
  | RecvEmpty | RecvBadUtf8 => bad UnicodeDecodeError
  | RecvText text =>
      let data := strip text in
      if String.eqb data "METRICS" then
        inl (json_dumps (JObj [("status", JStr "OK");
                               ("data", report (pn_metrics p))]) +s+ newline)
      else
        match unpack2 (split_all " "%char data) with
        | Raise e => bad e
        | Ret (method, url) =>
            if negb (String.eqb method "GET") then
              inl (build_response p ("WRONG_METHOD: " +s+ method) (JStr "") false)
            else
              match unpack2 (split_once "/"%char url) with
              | Raise e => bad e
              | Ret rk => inr rk
              end
        end
  end.

(** [handle_connection(conn, addr)].  [now_get] and [now_set] are the
    clock readings of the cache [get] and [set]; [reply] is what the
    origin connection yields.  Returns the node state, the effects in
    program order, and whether an exception escaped the handler. *)
Definition handle_connection (p : ProxyNode) (raw : recv_data)
  (now_get now_set : Z) (reply : origin_reply)
  : ProxyNode * list pn_event * res unit :=
  match raw with
  | RecvEmpty => (p, [], Ret tt)
  | _ =>
    match parse_request p raw with
    | inl msg => (p, [EvSend msg], Ret tt)
    | inr (resource, key) =>
      let cache_key := build_cache_key resource key in
      let m1 := record_request (pn_metrics p) in
      let '(c1, r) := cache_get now_get cache_key (pn_cache p) in
      let p1 := mkProxyNode (pn_port p) c1 m1 in
      let tr1 := [EvRecordRequest; EvCacheGet cache_key] in
      match r with
      | Raise e => (p1, tr1, Raise e)
      | Ret (value, true) =>
          let p2 := mkProxyNode (pn_port p) c1 (record_hit m1) in
          (p2, tr1 ++ [EvRecordHit; EvSend (build_response p2 "OK" value true)],
           Ret tt)
      | Ret (_, false) =>
          let m2 := record_origin_fetch (record_miss m1) in
          let p2 := mkProxyNode (pn_port p) c1 m2 in
          let tr2 := tr1 ++ [EvRecordMiss; EvRecordOriginFetch;
                             EvOriginFetch cache_key] in
          match fetch_from_origin reply with
          | Raise e => (p2, tr2, Raise e)
          | Ret (value, status) =>
              if String.eqb status "OK" then
                let '(c3, r3) := cache_set now_set cache_key value c1 in
                let p3 := mkProxyNode (pn_port p) c3 m2 in
                match r3 with
                | Raise e => (p3, tr2 ++ [EvCacheSet cache_key], Raise e)
                | Ret _ =>
                    (p3, tr2 ++ [EvCacheSet cache_key;
                                 EvSend (build_response p3 status value false)],
                     Ret tt)
                end
              else
                (p2, tr2 ++ [EvSend (build_response p2 status value false)], Ret tt)
          end
      end
    end
  end.

End ProxyNodeCode.

(* ------------------------------------------------------------------ *)
(** ** [NodeManager] (src/load_balancer/node_manager.py) *)

(** A proxy is its [(host, port)] pair. *)
Abbreviation proxy := (string * Z)%type.

Record health := mkHealth { healthy : bool; failures : Z }.

Record NodeManager := mkNodeManager {
  nm_proxy_list : list proxy;
  nm_nodes : gmap proxy health
}.

(** [self.max_failures = 3] *)
Definition max_failures : Z := 3.

Definition nm_init (proxy_list : list proxy) : NodeManager :=
  mkNodeManager proxy_list
    (foldl (fun m p => <[p := mkHealth true 0]> m) ∅ proxy_list).

(** [mark_healthy(host, port)]; [self.nodes[(host, port)]] raises
    [KeyError] for an unknown node. *)
Definition mark_healthy (p : proxy) (nm : NodeManager) : res NodeManager :=
  match nm_nodes nm !! p with
  | None => Raise KeyError
  | Some _ => Ret (mkNodeManager (nm_proxy_list nm)
                     (<[p := mkHealth true 0]> (nm_nodes nm)))
  end.

(** [mark_unhealthy(host, port)] *)
Definition mark_unhealthy (p : proxy) (nm : NodeManager) : res NodeManager :=
  match nm_nodes nm !! p with
  | None => Raise KeyError
  | Some h =>
      let f := failures h + 1 in
      let hl := if Z.leb max_failures f then false else healthy h in
      Ret (mkNodeManager (nm_proxy_list nm) (<[p := mkHealth hl f]> (nm_nodes nm)))
  end.

(** [list(filter(lambda x : self.nodes[x]["healthy"], self.proxy_list))] *)
Fixpoint filter_healthy (nodes : gmap proxy health) (l : list proxy)
  : res (list proxy) :=
  match l with
  | [] => Ret []
  | x :: t =>
      match nodes !! x with
      | None => Raise KeyError
      | Some h =>
          match filter_healthy nodes t with
          | Raise e => Raise e
          | Ret t' => Ret (if healthy h then x :: t' else t')
          end
      end
  end.

(** [get_healthy_nodes()] *)
Definition get_healthy_nodes (nm : NodeManager) : res (list proxy) :=
  match filter_healthy (nm_nodes nm) (nm_proxy_list nm) with
  | Raise e => Raise e
  | Ret [] => Ret (nm_proxy_list nm)
  | Ret hs => Ret hs
  end.

(** [is_healthy(host, port)] *)
Definition is_healthy (p : proxy) (nm : NodeManager) : res bool :=
  match nm_nodes nm !! p with
  | None => Raise KeyError
  | Some h => Ret (healthy h)
  end.

(** The calls the load balancer makes on the registry. *)
Inductive nm_op : Type :=
| OpMarkHealthy (p : proxy)
| OpMarkUnhealthy (p : proxy).

Definition nm_step (nm : NodeManager) (o : nm_op) : res NodeManager :=
  match o with
  | OpMarkHealthy p => mark_healthy p nm
  | OpMarkUnhealthy p => mark_unhealthy p nm
  end.

(** A sequence of calls from a given registry; [None] if one raised. *)
Fixpoint nm_run (nm : NodeManager) (ops : list nm_op) : option NodeManager :=
  match ops with
  | [] => Some nm
  | o :: t => match nm_step nm o with
              | Ret nm' => nm_run nm' t
              | Raise _ => None
              end
  end.

Definition nm_op_proxy (o : nm_op) : proxy :=
  match o with OpMarkHealthy p | OpMarkUnhealthy p => p end.

(* ------------------------------------------------------------------ *)
(** ** [LoadBalancer] (src/load_balancer/load_balancer.py) *)

(** [proxy_stats] maps each configured proxy to its last snapshot; Python
    [None] and JSON [null] are the same value [JNull]. *)
Record LoadBalancer := mkLoadBalancer {
  lb_proxy_list : list proxy;
  lb_node_manager : NodeManager;
  lb_proxy_stats : gmap proxy json;
  lb_current_index : Z;
  lb_strategy : string
}.

Definition lb_init (proxy_list : list proxy) (strategy : string) : LoadBalancer :=
  mkLoadBalancer proxy_list (nm_init proxy_list)
    (foldl (fun m p => <[p := JNull]> m) ∅ proxy_list) 0 strategy.

Definition lb_with_nm (lb : LoadBalancer) (nm : NodeManager) : LoadBalancer :=
  mkLoadBalancer (lb_proxy_list lb) nm (lb_proxy_stats lb)
    (lb_current_index lb) (lb_strategy lb).

Definition lb_with_stats (lb : LoadBalancer) (st : gmap proxy json) : LoadBalancer :=
  mkLoadBalancer (lb_proxy_list lb) (lb_node_manager lb) st
    (lb_current_index lb) (lb_strategy lb).

Definition lb_with_index (lb : LoadBalancer) (i : Z) : LoadBalancer :=
  mkLoadBalancer (lb_proxy_list lb) (lb_node_manager lb) (lb_proxy_stats lb)
    i (lb_strategy lb).

(** Numbers as Python compares them ([bool] is a subclass of [int]). *)
Definition py_number (x : json) : option Q :=
  match x with
  | JBool b => Some (if b then 1 else 0)%Q
  | JInt z => Some (inject_Z z)
  | JFloat q => Some q
  | _ => None
  end.

(** [a < b] between two key values.  Numbers compare numerically; every
    other pair is modelled as raising [TypeError] (orderings of strings or
    lists are not modelled). *)
Definition py_lt (a b : json) : res bool :=
  match py_number a, py_number b with
  | Some x, Some y => Ret (negb (Qle_bool y x))
  | _, _ => Raise TypeError
  end.

(** The loop of [min(iterable, key=key)] after the first element: an
    element replaces the current minimum only when its key is strictly
    smaller. *)
Fixpoint py_min_loop (key : proxy -> res json) (l : list proxy)
  (best : proxy) (bestk : json) : res proxy :=
  match l with
  | [] => Ret best
  | x :: t =>
      match key x with
      | Raise e => Raise e
      | Ret kx =>
          match py_lt kx bestk with
          | Raise e => Raise e
          | Ret true => py_min_loop key t x kx
          | Ret false => py_min_loop key t best bestk
          end
      end
  end.

(** [min(iterable, key=key)]: [ValueError] on an empty sequence. *)
Definition py_min (key : proxy -> res json) (l : list proxy) : res proxy :=
  match l with
  | [] => Raise ValueError
  | x :: t =>
      match key x with
      | Raise e => Raise e
      | Ret kx => py_min_loop key t x kx
      end
  end.

(** [lambda client : self.proxy_stats[client]["total_requests"]
       if self.proxy_stats[client] else 0] *)
Definition load_key (stats : gmap proxy json) (client : proxy) : res json :=
  match stats !! client with
  | None => Raise KeyError
  | Some snap => if truthy snap then getitem snap "total_requests" else Ret (JInt 0)
  end.

(** [pick_proxy()]; [Ret None] is the implicit [return None] of a strategy
    that is neither round robin nor least loaded. *)
Definition pick_proxy (lb : LoadBalancer) : LoadBalancer * res (option proxy) :=
  match get_healthy_nodes (lb_node_manager lb) with
  | Raise e => (lb, Raise e)
  | Ret hs =>
      let healthy_proxies := match hs with [] => lb_proxy_list lb | _ => hs end in
      if String.eqb (lb_strategy lb) "round_robin" then
        let n := Z.of_nat (length healthy_proxies) in
        if Z.eqb n 0 then (lb, Raise ZeroDivisionError)
        else
          let idx := Z.modulo (lb_current_index lb) n in
          match healthy_proxies !! Z.to_nat idx with
          | None => (lb, Raise IndexError)
          | Some p => (lb_with_index lb (lb_current_index lb + 1), Ret (Some p))
          end
      else if String.eqb (lb_strategy lb) "least_loaded" then
        match py_min (load_key (lb_proxy_stats lb)) healthy_proxies with
        | Raise e => (lb, Raise e)
        | Ret p => (lb, Ret (Some p))
        end
      else (lb, Ret None)
  end.

(** What the connection to a proxy yields: [connect] raises (with the text
    of the exception), [sendall]/[readline] raises, or [readline] returns a
    line ([""] at end of stream). *)
Inductive proxy_reply : Type :=
| PConnectFail (err : string)
| PIOError
| PReadLine (line : string).

Section LoadBalancerCode.

Variable json_loads : string -> string + json.
Variable json_dumps : json -> string.

Definition unreachable_msg (data : json) : string :=
  json_dumps (JObj [("status", JStr "PROXY_UNREACHABLE"); ("data", data)])
  +s+ newline.

Definition lb_mark_unhealthy (lb : LoadBalancer) (p : proxy) : res LoadBalancer :=
  match mark_unhealthy p (lb_node_manager lb) with
  | Raise e => Raise e
  | Ret nm => Ret (lb_with_nm lb nm)
  end.

Definition lb_mark_healthy (lb : LoadBalancer) (p : proxy) : res LoadBalancer :=
  match mark_healthy p (lb_node_manager lb) with
  | Raise e => Raise e
  | Ret nm => Ret (lb_with_nm lb nm)
  end.

(** Run a registry update, then return [msg]. *)
Definition after_mark (r : res LoadBalancer) (lb : LoadBalancer) (msg : string)
  : LoadBalancer * res string :=
  match r with
  | Raise e => (lb, Raise e)
  | Ret lb' => (lb', Ret msg)
  end.

(** [forward_request(proxy_host, proxy_port, raw_request)] *)
Definition forward_request (lb : LoadBalancer) (p : proxy) (reply : proxy_reply)
  : LoadBalancer * res string :=
  match reply with
  | PConnectFail err =>
      after_mark (lb_mark_unhealthy lb p) lb (unreachable_msg (JStr err))
  | PIOError => (lb, Raise OSError)
  | PReadLine first_line =>
      if String.eqb first_line "" then
        after_mark (lb_mark_unhealthy lb p) lb (unreachable_msg JNull)
      else
        let j_string := strip first_line in
        match json_loads j_string with
        | inl err => after_mark (lb_mark_unhealthy lb p) lb (unreachable_msg (JStr err))
        | inr _ => after_mark (lb_mark_healthy lb p) lb (j_string +s+ newline)
        end
  end.

(** [self.proxy_stats[(proxy_host, proxy_port)]] *)
Definition stats_get (lb : LoadBalancer) (p : proxy) : res json :=
  match lb_proxy_stats lb !! p with
  | None => Raise KeyError
  | Some s => Ret s
  end.

(** [d[k] = v] on a dict kept in insertion order. *)
Fixpoint dict_set (k : string) (v : json) (kvs : list (string * json))
  : list (string * json) :=
  match kvs with
  | [] => [(k, v)]
  | (k', v') :: t => if String.eqb k k' then (k, v) :: t else (k', v') :: dict_set k v t
  end.

Definition pretty_z (z : Z) : string := pretty z.

(** The ["proxies"] part of the METRICS view. *)
Fixpoint proxies_view (lb : LoadBalancer) (l : list proxy)
  (acc : list (string * json)) : res (list (string * json)) :=
  match l with
  | [] => Ret acc
  | (h, port) :: t =>
      match is_healthy (h, port) (lb_node_manager lb), stats_get lb (h, port) with
      | Raise e, _ | _, Raise e => Raise e
      | Ret b, Ret m =>
          proxies_view lb t
            (dict_set (h +s+ ":" +s+ pretty_z port)
                      (JObj [("healthy", JBool b); ("metrics", m)]) acc)
      end
  end.

(** [handle_client(conn, addr)]: the state reached, and the message sent
    ([Ret None] when nothing is sent) or the exception that escaped.
    [reply] is what the chosen proxy's connection yields. *)
Definition handle_client (lb : LoadBalancer) (raw : recv_data) (reply : proxy_reply)
  : LoadBalancer * res (option string) :=
  match raw with
  | RecvEmpty => (lb, Ret None)
  | RecvBadUtf8 => (lb, Raise UnicodeDecodeError)
  | RecvText decoded_data =>
      if String.eqb (strip decoded_data) "METRICS" then
        match proxies_view lb (lb_proxy_list lb) [] with
        | Raise e => (lb, Raise e)
        | Ret pv =>
            let data := JObj [("strategy", JStr (lb_strategy lb));
                              ("current_index", JInt (lb_current_index lb));
                              ("proxies", JObj pv)] in
            (lb, Ret (Some (json_dumps (JObj [("status", JStr "OK"); ("data", data)])
                            +s+ newline)))
        end
      else
        (* the request forwarded is [decoded_data.strip() + "\n"] *)
        match pick_proxy lb with
        | (lb1, Raise e) => (lb1, Raise e)
        | (lb1, Ret None) =>
            (lb1, Ret (Some (json_dumps (JObj [("status", JStr "PROXY_ERROR");
                                               ("data", JNull)]) +s+ newline)))
        | (lb1, Ret (Some p)) =>
            match forward_request lb1 p reply with
            | (lb2, Raise e) => (lb2, Raise e)
            | (lb2, Ret r) =>
                if negb (String.eqb r "") then (lb2, Ret (Some r))
                else (lb2, Ret (Some (unreachable_msg JNull)))
            end
      end
  end.

(** [request_metrics(host, port)]; [JNull] is its [None]. *)
Definition request_metrics (reply : proxy_reply) : res json :=
  match reply with
  | PConnectFail _ => Ret JNull
  | PIOError => Raise OSError
  | PReadLine first_line =>
      if String.eqb first_line "" then Ret JNull
      else
        match json_loads (strip first_line) with
        | inl _ => Ret JNull
        | inr r =>
            match getitem r "status" with
            | Raise e => Raise e
            | Ret st =>
                (* [and] short-circuits; [r] is a dict once [r["status"]]
                   succeeded *)
                if json_eq_str st "OK" then
                  match r with
                  | JObj kvs =>
                      match obj_lookup "data" kvs with
                      | Some _ => getitem r "data"
                      | None => Ret JNull
                      end
                  | _ => Raise TypeError
                  end
                else Ret JNull
            end
        end
  end.

(** The body of one [metrics_loop] iteration after the sleep: the [for]
    loop over the proxies.  [replies p] is what polling [p] yields.  An
    exception stops the loop; what was done before it stays done. *)
Fixpoint poll_proxies (lb : LoadBalancer) (replies : proxy -> proxy_reply)
  (l : list proxy) : LoadBalancer * res unit :=
  match l with
  | [] => (lb, Ret tt)
  | p :: t =>
      match request_metrics (replies p) with
      | Raise e => (lb, Raise e)
      | Ret metrics =>
          let ok := truthy metrics in
          let lb1 := lb_with_stats lb
                       (<[p := if ok then metrics else JNull]> (lb_proxy_stats lb)) in
          match (if ok then lb_mark_healthy lb1 p else lb_mark_unhealthy lb1 p) with
          | Raise e => (lb1, Raise e)
          | Ret lb2 => poll_proxies lb2 replies t
          end
      end
  end.

(** One iteration of [metrics_loop]: the [except] clause logs the
    exception and the loop goes on with the state reached. *)
Definition metrics_loop_iteration (lb : LoadBalancer) (replies : proxy -> proxy_reply)
  : LoadBalancer :=
  fst (poll_proxies lb replies (lb_proxy_list lb)).

End LoadBalancerCode.

(* ------------------------------------------------------------------ *)
(** ** Concrete inputs used by the checks below *)

(** The double quote character, to write JSON text. *)
Definition dq : string := String (Ascii.ascii_of_nat 34) EmptyString.

Definition quote (s : string) : string := dq +s+ s +s+ dq.

Definition P1 : proxy := ("127.0.0.1", 9001).
Definition P2 : proxy := ("127.0.0.1", 9002).

(** A [json.loads] that knows a handful of texts (enough for the concrete
    checks); every other text is rejected as [json.loads] rejects
    garbage. *)
Definition loads_table (tbl : list (string * json)) (s : string) : string + json :=
  match find (fun kv => String.eqb (fst kv) s) tbl with
  | Some (_, v) => inr v
  | None => inl "Expecting value: line 1 column 1 (char 0)"
  end.

(** A [json.dumps] used for concrete checks: only its shape matters. *)
Definition dumps_stub (x : json) : string :=
  match x with
  | JObj _ => "{...}"
  | _ => "..."
  end.

(** JSON texts of METRICS replies: [{"status": "OK", "data": {"total_requests": n}}]
    and the same without the ["status"] field. *)
Definition snapshot_text (n : string) : string :=
  "{" +s+ quote "total_requests" +s+ ": " +s+ n +s+ "}".

Definition metrics_ok_text (n : string) : string :=
  "{" +s+ quote "status" +s+ ": " +s+ quote "OK" +s+ ", " +s+ quote "data"
  +s+ ": " +s+ snapshot_text n +s+ "}".

Definition metrics_nostatus_text (n : string) : string :=
  "{" +s+ quote "data" +s+ ": " +s+ snapshot_text n +s+ "}".

Definition snapshot (n : Z) : json := JObj [("total_requests", JInt n)].

Definition metrics_loads : string -> string + json :=
  loads_table
    [(metrics_ok_text "1", JObj [("status", JStr "OK"); ("data", snapshot 1)]);
     (metrics_ok_text "2", JObj [("status", JStr "OK"); ("data", snapshot 2)]);
     (metrics_nostatus_text "2", JObj [("data", snapshot 2)])].

(** First poll: both proxies answer with [total_requests = 1]. *)
Definition replies_round1 (p : proxy) : proxy_reply :=
  PReadLine (metrics_ok_text "1" +s+ newline).

(** Second poll: [P1] answers without ["status"], [P2] answers normally. *)
Definition replies_round2 (p : proxy) : proxy_reply :=
  if bool_decide (p = P1) then PReadLine (metrics_nostatus_text "2" +s+ newline)
  else PReadLine (metrics_ok_text "2" +s+ newline).

(** Calls on a [TTLCache], each at its clock reading. *)
Inductive ttl_op : Type :=
| TGet (now : Z) (key : string)
| TSet (now : Z) (key : string) (value : json).

Fixpoint ttl_run (c : TTLCache) (ops : list ttl_op) : TTLCache :=
  match ops with
  | [] => c
  | TGet now k :: t => ttl_run (snd (ttl_get now k c)) t
  | TSet now k v :: t => ttl_run (ttl_set now k v c) t
  end.

Definition ttl_op_sets (k : string) (o : ttl_op) : bool :=
  match o with
  | TSet _ k' _ => String.eqb k' k
  | TGet _ _ => false
  end.

(** Whether the registry currently marks [p] healthy. *)
Definition is_marked (nm : NodeManager) (p : proxy) : bool :=
  match nm_nodes nm !! p with
  | Some h => healthy h
  | None => false
  end.

(** The load the spec assigns to a last-known snapshot: a missing snapshot
    ([null]) counts as zero, otherwise its integer ["total_requests"]. *)
Definition snapshot_load (s : json) : option Z :=
  match s with
  | JNull => Some 0
  | JObj kvs =>
      match obj_lookup "total_requests" kvs with
      | Some (JInt z) => Some z
      | _ => None
      end
  | _ => None
  end.

Definition stats_load (stats : gmap proxy json) (q : proxy) : Z :=
  match stats !! q with
  | Some s => match snapshot_load s with Some z => z | None => 0 end
  | None => 0
  end.

(** The candidate list [pick_proxy] works on. *)
Definition candidates (lb : LoadBalancer) (hs : list proxy) : list proxy :=
  match hs with [] => lb_proxy_list lb | _ => hs end.

(** A least-loaded balancer over [P1; P2] where only [P1] has been polled
    (with 5 requests). *)
Definition lb_least_loaded_example : LoadBalancer :=
  let lb := lb_init [P1; P2] "least_loaded" in
  lb_with_stats lb (<[P1 := snapshot 5]> (lb_proxy_stats lb)).

(** Calls on an [LRUCache]. *)
Inductive lru_op : Type :=
| LGet (key : string)
| LSet (key : string) (value : json).

(** Runs calls from a cache and a use history, recording in the history
    the key of every [set] and of every [get] that found its key (the uses
    that promote recency); [None] if a call raised. *)
Fixpoint lru_run (c : LRUCache) (log : list string) (ops : list lru_op)
  : option (LRUCache * list string) :=
  match ops with
  | [] => Some (c, log)
  | LGet k :: t =>
      match lru_get k c with
      | (c', Ret (_, true)) => lru_run c' (log ++ [k]) t
      | (c', Ret (_, false)) => lru_run c' log t
      | (_, Raise _) => None
      end
  | LSet k v :: t =>
      match lru_set k v c with
      | (c', Ret _) => lru_run c' (log ++ [k]) t
      | (_, Raise _) => None
      end
  end.

(** Position of the last use of [k] in a use history ([acc] if none). *)
Fixpoint last_index_from (k : string) (log : list string) (i acc : nat) : nat :=
  match log with
  | [] => acc
  | x :: t => last_index_from k t (S i) (if String.eqb x k then i else acc)
  end.

Definition last_index (k : string) (log : list string) : nat :=
  last_index_from k log 0 0.

(** The node of key [k] in the usage list. *)
Definition find_node (k : string) (l : list node) : option node :=
  List.find (fun n => String.eqb (nkey n) k) l.

(** The registry invariant over the configured list [pl]: every node has a
    non-negative failure count and is healthy exactly below the
    threshold. *)
Definition nm_inv (pl : list proxy) (nm : NodeManager) : Prop :=
  nm_proxy_list nm = pl /\
  forall p, p ∈ pl -> exists f, 0 <= f /\
    nm_nodes nm !! p = Some (mkHealth (Z.ltb f max_failures) f).

(** Shape invariant: the list has one node per key, the dict maps each key
    to its node in the list, and both have the same size. *)
Definition lru_inv (c : LRUCache) : Prop :=
  List.NoDup (map nkey (lru_list c))
  /\ (forall k, lru_store c !! k = find_node k (lru_list c))
  /\ size (lru_store c) = length (lru_list c).

(** Recency invariant: the list is ordered by last use in [log], and every
    key in it has been used. *)
Definition lru_rec_inv (log : list string) (c : LRUCache) : Prop :=
  StronglySorted (fun a b => (last_index (nkey a) log < last_index (nkey b) log)%nat)
    (lru_list c)
  /\ forall n, In n (lru_list c) -> In (nkey n) log.

Definition lru_bound (c : LRUCache) : Prop :=
  Z.of_nat (length (lru_list c)) <= capacity c.

(** The state after [k] is unlinked and its (new) node [n] linked at the
    end and stored. *)
Definition lru_touch (k : string) (n : node) (c : LRUCache) : LRUCache :=
  mkLRUCache (<[k := n]> (lru_store c)) (unlink k (lru_list c) ++ [n]) (capacity c).

(** [str(e)] of the modelled exceptions, for concrete checks. *)
Definition exc_name (e : exc) : string :=
  match e with
  | KeyError => "KeyError"
  | TypeError => "TypeError"
  | ValueError => "ValueError"
  | ZeroDivisionError => "ZeroDivisionError"
  | UnicodeDecodeError => "UnicodeDecodeError"
  | AttributeError => "AttributeError"
  | IndexError => "IndexError"
  | OSError => "OSError"
  end.

(** A fresh proxy node with a TTL cache, and its handling of
    [GET users/1] when the origin can not be reached. *)
Definition pn_example : ProxyNode :=
  mkProxyNode 9001 (CacheTTL (ttl_init 30)) (metrics_init "2024-05-01T12:00:00").

Definition req_example : recv_data := RecvText "GET users/1".

Definition hc_example : ProxyNode * list pn_event * res unit :=
  handle_connection (loads_table []) dumps_stub exc_name pn_example req_example 0 0
    OConnectFail.

(** A cache engine in a consistent state: the LRU's dict and linked list
    agree (the TTL engine has no such constraint). *)
Definition cache_ok (c : cache) : Prop :=
  match c with
  | CacheTTL _ => True
  | CacheLRU l => lru_inv l
  end.

(* ------------------------------------------------------------------ *)
(** ** Client (src/client/client.py) *)

(** [build_request(path)]: [f"GET {path}\n"] *)
Definition build_request (path : string) : string :=
  "GET " +s+ path +s+ newline.

(** Whether [s] contains the character [c]. *)
Fixpoint has_char (c : Ascii.ascii) (s : string) : bool :=
  match s with
  | EmptyString => false
  | String a t => Ascii.eqb a c || has_char c t
  end.

(** Whether [s] contains a character that [str.strip] removes. *)
Fixpoint has_space (s : string) : bool :=
  match s with
  | EmptyString => false
  | String a t => is_py_space a || has_space t
  end.

(* ------------------------------------------------------------------ *)
(** ** Origin server (src/origin/origin_server.py)

    One pass of the [while True] loop, after [accept].  The body is not
    inside a [try] except for the file read: an exception raised while
    decoding or parsing the request ([Raise e]) leaves the loop and ends
    the server.  [load_file path] is [open(path)] followed by
    [json.load(f)]: [inl err] when either raises (with [str(e)]).  [Ret
    None] is the [continue] on an empty read; the [print] and
    [time.sleep] calls have no modelled effect. *)

Section OriginServer.

Variable json_dumps : json -> string.

Definition origin_filepath (resource key : string) : string :=
  "data/" +s+ resource +s+ key +s+ ".json".

Definition origin_msg (status : string) (data : json) : string :=
  json_dumps (JObj [("status", JStr status); ("data", data)]) +s+ newline.

Definition origin_handle (load_file : string -> string + json) (raw : recv_data)
  : res (option string) :=
  match raw with
  | RecvEmpty => Ret None
  | RecvBadUtf8 => Raise UnicodeDecodeError
  | RecvText text =>
      let data := strip text in
      match unpack2 (split_all " "%char data) with
      | Raise e => Raise e
      | Ret (method, url) =>
          if negb (String.eqb method "GET") then
            Ret (Some (origin_msg "WRONG_METHOD"
                         (JStr (method +s+ " is not currently supported"))))
          else
            match unpack2 (split_once "/"%char url) with
            | Raise e => Raise e
            | Ret (resource, key) =>
                match load_file (origin_filepath resource key) with
                | inr fetched_data => Ret (Some (origin_msg "OK" fetched_data))
                | inl err =>
                    Ret (Some (origin_msg "NOT_FOUND"
                                 (JStr ("An error occured: " +s+ err))))
                end
            end
      end
  end.

End OriginServer.

(* ------------------------------------------------------------------ *)
(** ** Repeated use of [pick_proxy] *)

(** The proxies chosen by [n] successive [pick_proxy()] calls with no other
    change to the balancer in between (as [handle_client] calls it, one
    call per forwarded request); [Raise] if a call raised, and the list
    stops at a call that returned [None]. *)
Fixpoint pick_n (lb : LoadBalancer) (n : nat) : LoadBalancer * res (list proxy) :=
  match n with
  | O => (lb, Ret [])
  | S n' =>
      match pick_proxy lb with
      | (lb1, Raise e) => (lb1, Raise e)
      | (lb1, Ret None) => (lb1, Ret [])
      | (lb1, Ret (Some p)) =>
          match pick_n lb1 n' with
          | (lb2, Raise e) => (lb2, Raise e)
          | (lb2, Ret ps) => (lb2, Ret (p :: ps))
          end
      end
  end.

(** Every configured proxy is known to the registry and has a
    [proxy_stats] slot (true of [lb_init] and kept by every update). *)
Definition lb_known (lb : LoadBalancer) : Prop :=
  forall p, In p (lb_proxy_list lb) ->
    is_Some (nm_nodes (lb_node_manager lb) !! p) /\ is_Some (lb_proxy_stats lb !! p).

(* ------------------------------------------------------------------ *)
(** ** Concrete states used by the witnesses below *)

(** The LRU cache of capacity 2 holding ["a" -> 1]. *)
Definition lru_a1 : LRUCache := fst (lru_set "a" (JInt 1) (lru_init 2)).

(** An origin that knows one line, an OK reply carrying [7]. *)
Definition origin_ok_loads : string -> string + json :=
  loads_table [("ORIGIN", JObj [("status", JStr "OK"); ("data", JInt 7)])].

Definition hc_miss : ProxyNode * list pn_event * res unit :=
  handle_connection origin_ok_loads dumps_stub exc_name pn_example req_example 0 0
    (OReadLine ("ORIGIN" +s+ newline)).

(* ================================================================== *)
(** * Properties *)

(** ** Helper lemmas *)

Lemma newline_nonempty (s : string) : s +s+ newline <> "".
Proof. destruct s; discriminate. Qed.

(* ------------------------------------------------------------------ *)
(** ** Metrics snapshot *)

(** C1 (counterexample): the snapshot of [report] has no ["cache_hits"]
    key, so its key set is not the one the spec names. *)
Lemma report_keys_differ_from_spec :
  ~ (forall k, In k (json_keys (report metrics_fresh)) <-> In k spec_report_keys).
Proof.
  intros H. destruct (proj2 (H "cache_hits")) as [E|[E|[E|[E|[E|[E|[]]]]]]];
    [ simpl; auto | discriminate .. ].
Qed.

(** C1 (amended): for every counter state, [report] returns exactly the keys
    start_time, total_requests, hit_rate, hits, misses, origin_fetches, in
    that order; [hit_rate] is [0] when hits + misses = 0 and
    hits / (hits + misses) otherwise, and the counters are reported as they
    are. *)
Theorem report_snapshot (m : ProxyMetrics) :
  json_keys (report m) =
    ["start_time"; "total_requests"; "hit_rate"; "hits"; "misses"; "origin_fetches"]
  /\ getitem (report m) "hit_rate" =
       Ret (if Z.eqb (cache_hits m + cache_misses m) 0 then JInt 0
            else JFloat (inject_Z (cache_hits m) /
                         inject_Z (cache_hits m + cache_misses m))%Q)
  /\ getitem (report m) "total_requests" = Ret (JInt (total_requests m))
  /\ getitem (report m) "hits" = Ret (JInt (cache_hits m))
  /\ getitem (report m) "misses" = Ret (JInt (cache_misses m))
  /\ getitem (report m) "origin_fetches" = Ret (JInt (origin_fetches m))
  /\ getitem (report m) "start_time" = Ret (JStr (start_time m)).
Proof.
  unfold report. repeat split; reflexivity.
Qed.

(* ------------------------------------------------------------------ *)
(** ** Load balancer with an empty proxy list *)

(** C2 (code_bug): with an empty proxy list, [pick_proxy] does not return
    [None]: round robin raises [ZeroDivisionError] ([% len([])]) and least
    loaded raises [ValueError] ([min] of an empty sequence), so
    [handle_client] raises instead of sending PROXY_ERROR. *)
Theorem empty_proxy_list_raises (loads : string -> string + json)
  (dumps : json -> string) (reply : proxy_reply) :
  snd (handle_client loads dumps (lb_init [] "round_robin")
         (RecvText "GET article/1") reply) = Raise ZeroDivisionError
  /\ snd (handle_client loads dumps (lb_init [] "least_loaded")
            (RecvText "GET article/1") reply) = Raise ValueError.
Proof. split; reflexivity. Qed.

(* ------------------------------------------------------------------ *)
(** ** Origin fetch *)

(** C3 (code_bug): a reply line that is valid JSON but not an object, or an
    object without ["status"], makes [fetch_from_origin] raise ([TypeError],
    [KeyError]) instead of returning [(None, "ORIGIN_FAILURE")]. *)
Theorem fetch_from_origin_raises_on_statusless_json
  (loads : string -> string + json) (line1 line2 : string)
  (H1 : line1 <> "") (H2 : line2 <> "")
  (L1 : loads (strip line1) = inr (JList []))
  (L2 : loads (strip line2) = inr (JObj [("data", JInt 1)])) :
  fetch_from_origin loads (OReadLine line1) = Raise TypeError
  /\ fetch_from_origin loads (OReadLine line2) = Raise KeyError.
Proof.
  unfold fetch_from_origin.
  apply String.eqb_neq in H1, H2. rewrite H1, H2, L1, L2. split; reflexivity.
Qed.

(** Witness of C3 at the lines ["[]\n"] and ["{\"data\": 1}\n"]. *)
Lemma fetch_from_origin_raises_on_statusless_json_witness :
  let tbl := [("[]", JList []); ("{" +s+ quote "data" +s+ ": 1}", JObj [("data", JInt 1)])] in
  fetch_from_origin (loads_table tbl) (OReadLine ("[]" +s+ newline)) = Raise TypeError
  /\ fetch_from_origin (loads_table tbl)
       (OReadLine ("{" +s+ quote "data" +s+ ": 1}" +s+ newline)) = Raise KeyError.
Proof.
  apply fetch_from_origin_raises_on_statusless_json;
    [ discriminate | discriminate | vm_compute; reflexivity | vm_compute; reflexivity ].
Defined.

(* ------------------------------------------------------------------ *)
(** ** Metrics polling *)

(** C4 (code_bug): when [P1]'s METRICS reply is a JSON object without
    ["status"], [request_metrics] raises [KeyError]; the [for] loop is
    abandoned: [P1]'s slot keeps its old snapshot (it is not set to null),
    [P1] is not marked unhealthy, and [P2] is not polled (its slot keeps
    the old snapshot although it answered with a new one). *)
Theorem metrics_cycle_aborts_on_statusless_reply :
  let lb1 := metrics_loop_iteration metrics_loads (lb_init [P1; P2] "round_robin")
               replies_round1 in
  let r2 := poll_proxies metrics_loads lb1 replies_round2 [P1; P2] in
  lb_proxy_stats lb1 !! P1 = Some (snapshot 1)
  /\ lb_proxy_stats lb1 !! P2 = Some (snapshot 1)
  /\ snd r2 = Raise KeyError
  /\ lb_proxy_stats (fst r2) !! P1 = Some (snapshot 1)
  /\ nm_nodes (lb_node_manager (fst r2)) !! P1 = Some (mkHealth true 0)
  /\ lb_proxy_stats (fst r2) !! P2 = Some (snapshot 1)
  /\ fst r2 = metrics_loop_iteration metrics_loads lb1 replies_round2.
Proof. vm_compute. repeat split. Qed.

(* ------------------------------------------------------------------ *)
(** ** Forwarding *)

(** C10: every value returned by [forward_request] is a non-empty string
    ending in a newline; hence in [handle_client] the [if res:] test always
    relays [res], and the fallback that sends PROXY_UNREACHABLE with null
    data is never taken: for a non-METRICS request, [handle_client] is the
    function without that branch. *)
Theorem forward_request_result_truthy
  (loads : string -> string + json) (dumps : json -> string)
  (lb : LoadBalancer) (text : string) (reply : proxy_reply)
  (Hnm : strip text <> "METRICS") :
  (forall lb0 p rep lb' s, forward_request loads dumps lb0 p rep = (lb', Ret s) ->
     s <> "" /\ exists s0, s = s0 +s+ newline)
  /\ handle_client loads dumps lb (RecvText text) reply =
     match pick_proxy lb with
     | (lb1, Raise e) => (lb1, Raise e)
     | (lb1, Ret None) =>
         (lb1, Ret (Some (dumps (JObj [("status", JStr "PROXY_ERROR");
                                       ("data", JNull)]) +s+ newline)))
     | (lb1, Ret (Some p)) =>
         match forward_request loads dumps lb1 p reply with
         | (lb2, Raise e) => (lb2, Raise e)
         | (lb2, Ret r) => (lb2, Ret (Some r))
         end
     end.
Proof.
  assert (Hfw : forall lb0 p rep lb' s, forward_request loads dumps lb0 p rep = (lb', Ret s) ->
     s <> "" /\ exists s0, s = s0 +s+ newline).
  { intros lb0 p rep lb' s Hf.
    unfold forward_request, after_mark, unreachable_msg in Hf.
    destruct rep as [err| |line].
    - destruct (lb_mark_unhealthy lb0 p); inversion Hf; subst.
      split; [apply newline_nonempty | eauto].
    - discriminate.
    - destruct (String.eqb line "").
      + destruct (lb_mark_unhealthy lb0 p); inversion Hf; subst.
        split; [apply newline_nonempty | eauto].
      + destruct (loads (strip line));
          [destruct (lb_mark_unhealthy lb0 p) | destruct (lb_mark_healthy lb0 p)];
          inversion Hf; subst; split; try apply newline_nonempty; eauto. }
  split; [exact Hfw|].
  unfold handle_client.
  apply String.eqb_neq in Hnm. rewrite Hnm.
  destruct (pick_proxy lb) as [lb1 [[p|]|e]]; try reflexivity.
  destruct (forward_request loads dumps lb1 p reply) as [lb2 [r|e]] eqn:Hf;
    try reflexivity.
  destruct (Hfw _ _ _ _ _ Hf) as [Hne _].
  apply String.eqb_neq in Hne. rewrite Hne. reflexivity.
Qed.

(** Witness of C10 on a request to [P1] that gets an empty reply. *)
Lemma forward_request_result_truthy_witness :
  strip "GET article/1" <> "METRICS" /\
  ((forall lb0 p rep lb' s, forward_request metrics_loads dumps_stub lb0 p rep = (lb', Ret s) ->
     s <> "" /\ exists s0, s = s0 +s+ newline)
  /\ handle_client metrics_loads dumps_stub (lb_init [P1] "round_robin")
       (RecvText "GET article/1") (PReadLine "") =
     match pick_proxy (lb_init [P1] "round_robin") with
     | (lb1, Raise e) => (lb1, Raise e)
     | (lb1, Ret None) =>
         (lb1, Ret (Some (dumps_stub (JObj [("status", JStr "PROXY_ERROR");
                                       ("data", JNull)]) +s+ newline)))
     | (lb1, Ret (Some p)) =>
         match forward_request metrics_loads dumps_stub lb1 p (PReadLine "") with
         | (lb2, Raise e) => (lb2, Raise e)
         | (lb2, Ret r) => (lb2, Ret (Some r))
         end
     end).
Proof.
  assert (H : strip "GET article/1" <> "METRICS") by (vm_compute; discriminate).
  split; [exact H|].
  exact (forward_request_result_truthy metrics_loads dumps_stub
           (lb_init [P1] "round_robin") "GET article/1" (PReadLine "") H).
Defined.

(* ------------------------------------------------------------------ *)
(** ** TTL cache *)

Lemma ttl_run_unset (c : TTLCache) (ops : list ttl_op) (k : string) :
  forallb (fun o => negb (ttl_op_sets k o)) ops = true ->
  ttl_store c !! k = None -> ttl_store (ttl_run c ops) !! k = None.
Proof.
  revert c. induction ops as [|o ops IH]; intros c Hops Hk; simpl in *; [exact Hk|].
  apply andb_prop in Hops as [Ho Hops].
  destruct o as [now k'|now k' v]; simpl in *; apply IH; auto.
  - unfold ttl_get. destruct (ttl_store c !! k') as [[v e]|] eqn:E; simpl; [|exact Hk].
    destruct (Z.ltb e now); simpl; [|exact Hk].
    unfold ttl_delete; simpl. destruct (decide (k = k')) as [->|Hne].
    + by rewrite lookup_delete_eq.
    + by rewrite lookup_delete_ne.
  - apply negb_true_iff, String.eqb_neq in Ho.
    simpl. rewrite lookup_insert_ne; auto.
Qed.

(** C7: for a TTL cache with [ttl = T] (times in microseconds, so the
    recorded expiry is [now + T * 10^6]): a key never set reads
    [(None, false)]; right after [set(k, v)] at [now], a [get] at a time up
    to the expiry returns [(v, true)], and a [get] strictly after it returns
    [(None, false)], removes [k] from the store and lowers [size()] by one;
    and every [set] records the fresh expiry [now + T * 10^6]. *)
Theorem ttl_cache_expiry (T : Z) (ops : list ttl_op) (k : string)
  (Hnever : forallb (fun o => negb (ttl_op_sets k o)) ops = true) :
  (forall now, fst (ttl_get now k (ttl_run (ttl_init T) ops)) = (JNull, false))
  /\ (forall (c : TTLCache) now v now', ttl c = T ->
        now' <= now + T * usec_per_sec ->
        fst (ttl_get now' k (ttl_set now k v c)) = (v, true))
  /\ (forall (c : TTLCache) now v now', ttl c = T ->
        now + T * usec_per_sec < now' ->
        fst (ttl_get now' k (ttl_set now k v c)) = (JNull, false)
        /\ ttl_store (snd (ttl_get now' k (ttl_set now k v c))) !! k = None
        /\ ttl_size (snd (ttl_get now' k (ttl_set now k v c)))
           = pred (ttl_size (ttl_set now k v c)))
  /\ (forall (c : TTLCache) now v, ttl c = T ->
        ttl_store (ttl_set now k v c) !! k = Some (v, now + T * usec_per_sec)).
Proof.
  split; [|split; [|split]].
  - intros now. unfold ttl_get.
    rewrite (ttl_run_unset (ttl_init T) ops k Hnever); reflexivity.
  - intros c now v now' <- Hle. unfold ttl_get, ttl_set; simpl.
    rewrite lookup_insert_eq.
    destruct (Z.ltb_spec (now + ttl c * usec_per_sec) now'); [lia|reflexivity].
  - intros c now v now' <- Hlt. unfold ttl_get, ttl_set; simpl.
    rewrite lookup_insert_eq.
    destruct (Z.ltb_spec (now + ttl c * usec_per_sec) now'); [|lia].
    simpl. split; [reflexivity|]. split.
    + by rewrite lookup_delete_eq.
    + unfold ttl_size; simpl.
      rewrite map_size_delete, lookup_insert_eq. reflexivity.
  - intros c now v <-. unfold ttl_set; simpl. by rewrite lookup_insert_eq.
Qed.

(** Witness of C7 with [T = 30] and a history that only touches another
    key. *)
Lemma ttl_cache_expiry_witness :
  forallb (fun o => negb (ttl_op_sets "article/1" o))
    [TSet 0 "article/2" (JInt 1); TGet 5 "article/2"] = true
  /\ ((forall now, fst (ttl_get now "article/1"
          (ttl_run (ttl_init 30) [TSet 0 "article/2" (JInt 1); TGet 5 "article/2"]))
        = (JNull, false))
  /\ (forall (c : TTLCache) now v now', ttl c = 30 ->
        now' <= now + 30 * usec_per_sec ->
        fst (ttl_get now' "article/1" (ttl_set now "article/1" v c)) = (v, true))
  /\ (forall (c : TTLCache) now v now', ttl c = 30 ->
        now + 30 * usec_per_sec < now' ->
        fst (ttl_get now' "article/1" (ttl_set now "article/1" v c)) = (JNull, false)
        /\ ttl_store (snd (ttl_get now' "article/1" (ttl_set now "article/1" v c)))
             !! "article/1" = None
        /\ ttl_size (snd (ttl_get now' "article/1" (ttl_set now "article/1" v c)))
           = pred (ttl_size (ttl_set now "article/1" v c)))
  /\ (forall (c : TTLCache) now v, ttl c = 30 ->
        ttl_store (ttl_set now "article/1" v c) !! "article/1"
        = Some (v, now + 30 * usec_per_sec))).
Proof.
  assert (H : forallb (fun o => negb (ttl_op_sets "article/1" o))
    [TSet 0 "article/2" (JInt 1); TGet 5 "article/2"] = true) by reflexivity.
  split; [exact H|].
  exact (ttl_cache_expiry 30 _ "article/1" H).
Defined.

(* ------------------------------------------------------------------ *)
(** ** Node-health registry *)

Lemma foldl_insert_lookup {V} (v : V) (l : list proxy) (m : gmap proxy V) (p : proxy) :
  foldl (fun m q => <[q := v]> m) m l !! p = if decide (p ∈ l) then Some v else m !! p.
Proof.
  revert m. induction l as [|q l IH]; intros m; simpl.
  - destruct (decide (p ∈ [])) as [Hin|]; [inversion Hin|reflexivity].
  - rewrite IH. destruct (decide (p ∈ l)), (decide (p ∈ q :: l));
      try reflexivity; try (exfalso; set_solver).
    + assert (p = q) as -> by set_solver. by rewrite lookup_insert_eq.
    + rewrite lookup_insert_ne; [reflexivity|set_solver].
Qed.

Lemma filter_healthy_ok (nodes : gmap proxy health) (l : list proxy) :
  (forall p, p ∈ l -> is_Some (nodes !! p)) ->
  filter_healthy nodes l =
    Ret (List.filter (fun p => match nodes !! p with
                               | Some h => healthy h | None => false end) l).
Proof.
  induction l as [|x l IH]; intros Hdom; simpl; [reflexivity|].
  destruct (Hdom x ltac:(set_solver)) as [h Hh]. rewrite Hh.
  rewrite IH by (intros; apply Hdom; set_solver).
  destruct (healthy h); reflexivity.
Qed.

Lemma nm_inv_init (pl : list proxy) : nm_inv pl (nm_init pl).
Proof.
  split; [reflexivity|]. intros p Hp. exists 0. split; [lia|].
  unfold nm_init; simpl. rewrite foldl_insert_lookup.
  destruct (decide (p ∈ pl)); [reflexivity|contradiction].
Qed.

Lemma nm_inv_step (pl : list proxy) (nm : NodeManager) (o : nm_op) :
  nm_inv pl nm -> nm_op_proxy o ∈ pl ->
  exists nm', nm_step nm o = Ret nm' /\ nm_inv pl nm'.
Proof.
  intros [Hpl Hinv] Ho.
  destruct (Hinv _ Ho) as [f [Hf Hlk]].
  destruct o as [p|p]; simpl in *.
  - unfold mark_healthy. rewrite Hlk. eexists; split; [reflexivity|].
    split; [exact Hpl|]. intros q Hq. simpl.
    destruct (decide (q = p)) as [->|Hne].
    + exists 0. rewrite lookup_insert_eq. split; [lia|reflexivity].
    + rewrite lookup_insert_ne by auto. apply Hinv, Hq.
  - unfold mark_unhealthy. rewrite Hlk. eexists; split; [reflexivity|].
    split; [exact Hpl|]. intros q Hq. simpl.
    destruct (decide (q = p)) as [->|Hne].
    + exists (f + 1). rewrite lookup_insert_eq. split; [lia|].
      simpl. unfold max_failures.
      destruct (Z.leb_spec 3 (f + 1)), (Z.ltb_spec (f + 1) 3), (Z.ltb_spec f 3);
        try lia; reflexivity.
    + rewrite lookup_insert_ne by auto. apply Hinv, Hq.
Qed.

Lemma nm_run_inv (pl : list proxy) (ops : list nm_op) (nm : NodeManager) :
  nm_inv pl nm -> Forall (fun o => nm_op_proxy o ∈ pl) ops ->
  exists nm', nm_run nm ops = Some nm' /\ nm_inv pl nm'.
Proof.
  revert nm. induction ops as [|o ops IH]; intros nm Hinv Hops; simpl.
  - eauto.
  - inversion Hops as [|? ? Ho Hrest]; subst.
    destruct (nm_inv_step pl nm o Hinv Ho) as [nm1 [E Hinv1]].
    rewrite E. apply IH; assumption.
Qed.

(** C8: starting from the initial registry over [pl] and after any
    sequence of [mark_healthy]/[mark_unhealthy] calls on configured
    proxies: every node has [failures >= 0] and [healthy = (failures < 3)];
    a further [mark_unhealthy] adds one to the node's failures and leaves it
    healthy exactly while the count stays below 3, a further [mark_healthy]
    sets it to healthy with 0 failures (other nodes untouched); and
    [get_healthy_nodes()] returns the configured proxies marked healthy, or
    the whole list when there are none. *)
Theorem node_health_state_machine (pl : list proxy) (ops : list nm_op)
  (Hops : Forall (fun o => nm_op_proxy o ∈ pl) ops) :
  exists nm, nm_run (nm_init pl) ops = Some nm
  /\ (forall p, p ∈ pl -> exists f, 0 <= f /\
        nm_nodes nm !! p = Some (mkHealth (Z.ltb f max_failures) f)
        /\ (exists nm', mark_unhealthy p nm = Ret nm'
              /\ nm_nodes nm' !! p = Some (mkHealth (Z.ltb (f + 1) max_failures) (f + 1))
              /\ forall q, q <> p -> nm_nodes nm' !! q = nm_nodes nm !! q)
        /\ (exists nm', mark_healthy p nm = Ret nm'
              /\ nm_nodes nm' !! p = Some (mkHealth true 0)
              /\ forall q, q <> p -> nm_nodes nm' !! q = nm_nodes nm !! q))
  /\ get_healthy_nodes nm =
       Ret (match List.filter (is_marked nm) pl with [] => pl | hs => hs end).
Proof.
  destruct (nm_run_inv pl ops (nm_init pl) (nm_inv_init pl) Hops)
    as [nm [Hrun [Hpl Hinv]]].
  exists nm. split; [exact Hrun|]. split.
  - intros p Hp. destruct (Hinv p Hp) as [f [Hf Hlk]].
    exists f. split; [exact Hf|]. split; [exact Hlk|]. split.
    + unfold mark_unhealthy. rewrite Hlk. eexists; split; [reflexivity|]. simpl.
      split.
      * rewrite lookup_insert_eq. unfold max_failures; simpl.
        destruct (Z.leb_spec 3 (f + 1)), (Z.ltb_spec (f + 1) 3), (Z.ltb_spec f 3);
          try lia; reflexivity.
      * intros q Hq. by rewrite lookup_insert_ne by auto.
    + unfold mark_healthy. rewrite Hlk. eexists; split; [reflexivity|]. simpl.
      split; [by rewrite lookup_insert_eq|].
      intros q Hq. by rewrite lookup_insert_ne by auto.
  - unfold get_healthy_nodes. rewrite Hpl, filter_healthy_ok.
    + unfold is_marked. destruct (List.filter _ pl); reflexivity.
    + intros p Hp. destruct (Hinv p Hp) as [f [_ ->]]. eauto.
Qed.

(** Witness of C8: three failures of [P1] then one success of [P2]. *)
Lemma node_health_state_machine_witness :
  Forall (fun o => nm_op_proxy o ∈ [P1; P2])
    [OpMarkUnhealthy P1; OpMarkUnhealthy P1; OpMarkUnhealthy P1; OpMarkHealthy P2]
  /\ exists nm, nm_run (nm_init [P1; P2])
       [OpMarkUnhealthy P1; OpMarkUnhealthy P1; OpMarkUnhealthy P1; OpMarkHealthy P2] = Some nm
  /\ (forall p, p ∈ [P1; P2] -> exists f, 0 <= f /\
        nm_nodes nm !! p = Some (mkHealth (Z.ltb f max_failures) f)
        /\ (exists nm', mark_unhealthy p nm = Ret nm'
              /\ nm_nodes nm' !! p = Some (mkHealth (Z.ltb (f + 1) max_failures) (f + 1))
              /\ forall q, q <> p -> nm_nodes nm' !! q = nm_nodes nm !! q)
        /\ (exists nm', mark_healthy p nm = Ret nm'
              /\ nm_nodes nm' !! p = Some (mkHealth true 0)
              /\ forall q, q <> p -> nm_nodes nm' !! q = nm_nodes nm !! q))
  /\ get_healthy_nodes nm =
       Ret (match List.filter (is_marked nm) [P1; P2] with [] => [P1; P2] | hs => hs end).
Proof.
  assert (H : Forall (fun o => nm_op_proxy o ∈ [P1; P2])
    [OpMarkUnhealthy P1; OpMarkUnhealthy P1; OpMarkUnhealthy P1; OpMarkHealthy P2]).
  { repeat constructor; simpl; set_solver. }
  split; [exact H|].
  exact (node_health_state_machine [P1; P2] _ H).
Defined.

(* ------------------------------------------------------------------ *)
(** ** Least-loaded selection *)

Section PyMin.

Variable key : proxy -> res json.
Variable f : proxy -> Z.
Hypothesis Hkey : forall q, key q = Ret (JInt (f q)).

Lemma py_lt_int (a b : Z) : py_lt (JInt a) (JInt b) = Ret (Z.ltb a b).
Proof.
  unfold py_lt; simpl. f_equal.
  destruct (Z.ltb_spec a b) as [Hlt|Hge].
  - destruct (Qle_bool (inject_Z b) (inject_Z a)) eqn:E; [|reflexivity].
    apply Qle_bool_iff in E. rewrite <- Zle_Qle in E. lia.
  - assert (Qle_bool (inject_Z b) (inject_Z a) = true) as ->; [|reflexivity].
    apply Qle_bool_iff. rewrite <- Zle_Qle. lia.
Qed.

Lemma py_min_loop_spec (t : list proxy) (best : proxy) :
  exists p, py_min_loop key t best (JInt (f best)) = Ret p /\
    ((p = best /\ forall q, In q t -> f best <= f q) \/
     (exists pre post, t = pre ++ p :: post /\ f p < f best /\
        (forall q, In q pre -> f p < f q) /\ (forall q, In q post -> f p <= f q))).
Proof.
  revert best. induction t as [|x t IH]; intros best; simpl.
  - exists best. split; [reflexivity|]. left. split; [reflexivity|]. intros _ [].
  - rewrite Hkey, py_lt_int.
    destruct (Z.ltb_spec (f x) (f best)) as [Hlt|Hge].
    + destruct (IH x) as [p [E Hcase]]. exists p. split; [exact E|]. right.
      destruct Hcase as [[-> Hall]|[pre [post [-> [Hp [Hpre Hpost]]]]]].
      * exists [], t. split; [reflexivity|]. split; [exact Hlt|].
        split; [intros _ []|exact Hall].
      * exists (x :: pre), post. split; [reflexivity|]. split; [lia|].
        split; [|exact Hpost]. intros q [<-|Hq]; [lia|auto].
    + destruct (IH best) as [p [E Hcase]]. exists p. split; [exact E|].
      destruct Hcase as [[-> Hall]|[pre [post [-> [Hp [Hpre Hpost]]]]]].
      * left. split; [reflexivity|]. intros q [<-|Hq]; [lia|auto].
      * right. exists (x :: pre), post. split; [reflexivity|]. split; [lia|].
        split; [|exact Hpost]. intros q [<-|Hq]; [lia|auto].
Qed.

Lemma py_min_spec (l : list proxy) :
  l <> [] ->
  exists pre p post, l = pre ++ p :: post /\ py_min key l = Ret p /\
    (forall q, In q pre -> f p < f q) /\ (forall q, In q post -> f p <= f q).
Proof.
  destruct l as [|x t]; [contradiction|]. intros _. simpl. rewrite Hkey.
  destruct (py_min_loop_spec t x) as [p [E Hcase]].
  destruct Hcase as [[-> Hall]|[pre [post [-> [Hp [Hpre Hpost]]]]]].
  - exists [], x, t. split; [reflexivity|]. split; [exact E|].
    split; [intros _ []|exact Hall].
  - exists (x :: pre), p, post. split; [reflexivity|]. split; [exact E|].
    split; [|exact Hpost]. intros q [<-|Hq]; [lia|auto].
Qed.

End PyMin.

Lemma filter_healthy_sublist (nodes : gmap proxy health) (l hs : list proxy) :
  filter_healthy nodes l = Ret hs -> hs `sublist_of` l.
Proof.
  revert hs. induction l as [|x l IH]; intros hs E; simpl in E.
  - inversion E. constructor.
  - destruct (nodes !! x) as [h|]; [|discriminate].
    destruct (filter_healthy nodes l) as [t'|e] eqn:Et; [|discriminate].
    inversion E; subst. destruct (healthy h).
    + apply sublist_skip, IH; reflexivity.
    + apply sublist_cons, IH; reflexivity.
Qed.

Lemma load_key_int (stats : gmap proxy json) (q : proxy) (s : json) (z : Z) :
  stats !! q = Some s -> snapshot_load s = Some z ->
  load_key stats q = Ret (JInt z).
Proof.
  intros Hq Hs. unfold load_key. rewrite Hq.
  destruct s as [| | | | | |kvs]; simpl in Hs; try discriminate.
  - inversion Hs; reflexivity.
  - destruct (obj_lookup "total_requests" kvs) as [[| | z'| | | |]|] eqn:E;
      try discriminate.
    inversion Hs; subst.
    destruct kvs as [|kv kvs]; [discriminate|].
    cbn [truthy length Nat.eqb negb]. unfold getitem. rewrite E. reflexivity.
Qed.

(** C9: with the least-loaded strategy and a non-empty candidate list (the
    healthy proxies, or the whole configured list when none is healthy) whose
    snapshots are each null or carry an integer ["total_requests"],
    [pick_proxy] returns a candidate [p] and leaves the state unchanged;
    every candidate before [p] has a strictly larger load and every one after
    it a load at least as large (null counting as zero), so [p] is the first
    candidate of least load; the candidates keep the order of the configured
    list. *)
Theorem least_loaded_pick (lb : LoadBalancer) (hs : list proxy)
  (Hstrat : lb_strategy lb = "least_loaded")
  (Hpl : nm_proxy_list (lb_node_manager lb) = lb_proxy_list lb)
  (Hhs : get_healthy_nodes (lb_node_manager lb) = Ret hs)
  (Hne : candidates lb hs <> [])
  (Hsnap : forall q, In q (candidates lb hs) ->
     exists s z, lb_proxy_stats lb !! q = Some s /\ snapshot_load s = Some z) :
  exists pre p post,
    candidates lb hs = pre ++ p :: post
    /\ pick_proxy lb = (lb, Ret (Some p))
    /\ (forall q, In q pre -> stats_load (lb_proxy_stats lb) p < stats_load (lb_proxy_stats lb) q)
    /\ (forall q, In q post -> stats_load (lb_proxy_stats lb) p <= stats_load (lb_proxy_stats lb) q)
    /\ candidates lb hs `sublist_of` lb_proxy_list lb.
Proof.
  set (stats := lb_proxy_stats lb).
  set (key q := if in_dec (fun a b => decide (a = b)) q (candidates lb hs) then load_key stats q
                else Ret (JInt (stats_load stats q))).
  assert (Hkey : forall q, key q = Ret (JInt (stats_load stats q))).
  { intros q. unfold key. destruct (in_dec (fun a b => decide (a = b)) q (candidates lb hs)) as [Hin|]; [|reflexivity].
    destruct (Hsnap q Hin) as [s [z [Hq Hz]]].
    rewrite (load_key_int stats q s z Hq Hz). unfold stats_load.
    fold stats in Hq. rewrite Hq, Hz. reflexivity. }
  destruct (py_min_spec key (stats_load stats) Hkey _ Hne)
    as [pre [p [post [Hsplit [Hmin [Hpre Hpost]]]]]].
  exists pre, p, post. split; [exact Hsplit|]. split; [|split; [exact Hpre|split; [exact Hpost|]]].
  - unfold pick_proxy. rewrite Hhs, Hstrat. simpl.
    assert (Heq : py_min (load_key stats) (candidates lb hs) = py_min key (candidates lb hs)).
    { assert (Hgen : forall l, (forall q, In q l -> In q (candidates lb hs)) ->
        py_min (load_key stats) l = py_min key l).
      { intros l Hl. destruct l as [|x t]; [reflexivity|]. simpl.
        assert (Hx : load_key stats x = key x).
        { unfold key. destruct (in_dec _ _ _) as [|n]; [reflexivity|]. exfalso; apply n, Hl; left; auto. }
        rewrite Hx. destruct (key x) as [kx|e]; [|reflexivity].
        assert (Hl' : forall q, In q t -> In q (candidates lb hs)) by (intros; apply Hl; right; auto).
        clear Hx Hl. revert x kx. induction t as [|y t IH]; intros x kx; [reflexivity|]. simpl.
        assert (Hy : load_key stats y = key y).
        { unfold key. destruct (in_dec _ _ _) as [|n]; [reflexivity|]. exfalso; apply n, Hl'; left; auto. }
        rewrite Hy. destruct (key y) as [ky|e]; [|reflexivity].
        destruct (py_lt ky kx) as [[|]|e]; [apply IH| apply IH |reflexivity];
          intros; apply Hl'; right; auto. }
      apply Hgen. auto. }
    unfold candidates in Heq, Hmin. fold stats. rewrite Heq, Hmin. reflexivity.
  - unfold candidates. unfold get_healthy_nodes in Hhs.
    destruct (filter_healthy _ _) as [l|e] eqn:Ef; [|discriminate].
    apply filter_healthy_sublist in Ef. rewrite Hpl in Ef.
    destruct l as [|x l]; inversion Hhs; subst.
    + rewrite Hpl. destruct (lb_proxy_list lb); reflexivity.
    + exact Ef.
Qed.

(** Witness of C9: the never-polled [P2] is chosen over [P1]. *)
Lemma least_loaded_pick_witness :
  let lb := lb_least_loaded_example in
  let hs := [P1; P2] in
  (lb_strategy lb = "least_loaded"
   /\ nm_proxy_list (lb_node_manager lb) = lb_proxy_list lb
   /\ get_healthy_nodes (lb_node_manager lb) = Ret hs
   /\ candidates lb hs <> [])
  /\ exists pre p post,
    candidates lb hs = pre ++ p :: post
    /\ pick_proxy lb = (lb, Ret (Some p))
    /\ (forall q, In q pre -> stats_load (lb_proxy_stats lb) p < stats_load (lb_proxy_stats lb) q)
    /\ (forall q, In q post -> stats_load (lb_proxy_stats lb) p <= stats_load (lb_proxy_stats lb) q)
    /\ candidates lb hs `sublist_of` lb_proxy_list lb.
Proof.
  intros lb hs.
  assert (H1 : lb_strategy lb = "least_loaded") by reflexivity.
  assert (H2 : nm_proxy_list (lb_node_manager lb) = lb_proxy_list lb) by reflexivity.
  assert (H3 : get_healthy_nodes (lb_node_manager lb) = Ret hs) by (vm_compute; reflexivity).
  assert (H4 : candidates lb hs <> []) by discriminate.
  assert (H5 : forall q, In q (candidates lb hs) ->
     exists s z, lb_proxy_stats lb !! q = Some s /\ snapshot_load s = Some z).
  { intros q Hq. destruct Hq as [<-|[<-|[]]];
      eexists _, _; split; vm_compute; reflexivity. }
  split; [tauto|].
  exact (least_loaded_pick lb hs H1 H2 H3 H4 H5).
Defined.

(* ------------------------------------------------------------------ *)
(** ** LRU cache *)

Module LRU.

Lemma find_node_spec k l n : find_node k l = Some n -> In n l /\ nkey n = k.
Proof.
  unfold find_node. intros H. apply find_some in H as [Hin Hk].
  apply String.eqb_eq in Hk. auto.
Qed.

Lemma find_node_none k l : ~ In k (map nkey l) -> find_node k l = None.
Proof.
  induction l as [|n t IH]; intros H; simpl; [reflexivity|].
  destruct (String.eqb_spec (nkey n) k) as [E|E].
  - exfalso. apply H. left. exact E.
  - apply IH. intros Hk. apply H. right. exact Hk.
Qed.

Lemma find_node_some_in k l : In k (map nkey l) -> exists n, find_node k l = Some n.
Proof.
  induction l as [|n t IH]; intros H; simpl in *; [contradiction|].
  destruct (String.eqb_spec (nkey n) k) as [E|E]; [eauto|].
  apply IH. destruct H as [H|H]; [contradiction|exact H].
Qed.

Lemma unlink_not_in k l : ~ In k (map nkey l) -> unlink k l = l.
Proof.
  induction l as [|n t IH]; intros H; simpl; [reflexivity|].
  destruct (String.eqb_spec (nkey n) k) as [E|E].
  - exfalso. apply H. left. exact E.
  - f_equal. apply IH. intros Hk. apply H. right. exact Hk.
Qed.

Lemma unlink_in k l x : In x (unlink k l) -> In x l.
Proof.
  induction l as [|n t IH]; simpl; [auto|].
  destruct (String.eqb (nkey n) k); simpl; [auto|]. intros [H|H]; auto.
Qed.

Lemma unlink_nodup k l :
  List.NoDup (map nkey l) ->
  List.NoDup (map nkey (unlink k l)) /\ ~ In k (map nkey (unlink k l)).
Proof.
  induction l as [|n t IH]; intros Hnd; simpl; [split; [constructor|auto]|].
  simpl in Hnd. inversion Hnd as [|? ? Hn Ht]; subst.
  destruct (String.eqb_spec (nkey n) k) as [E|E].
  - subst. split; assumption.
  - destruct (IH Ht) as [IH1 IH2]. simpl. split.
    + constructor; [|exact IH1].
      intros Hin. apply Hn. apply in_map_iff in Hin as [x [Hx Hin]].
      apply in_map_iff. exists x. split; [exact Hx|]. eapply unlink_in; eauto.
    + intros [H|H]; [contradiction|auto].
Qed.

Lemma find_unlink_ne k k' l : k' <> k -> find_node k' (unlink k l) = find_node k' l.
Proof.
  intros Hne. induction l as [|n t IH]; simpl; [reflexivity|].
  destruct (String.eqb_spec (nkey n) k) as [E|E]; simpl.
  - subst. unfold find_node at 2. simpl.
    destruct (String.eqb_spec (nkey n) k') as [E'|E']; [congruence|reflexivity].
  - unfold find_node in *; simpl. rewrite IH. reflexivity.
Qed.

Lemma find_node_snoc k l n :
  find_node k (l ++ [n]) =
    match find_node k l with
    | Some x => Some x
    | None => if String.eqb (nkey n) k then Some n else None
    end.
Proof.
  induction l as [|m t IH]; simpl; [unfold find_node; simpl; destruct (String.eqb _ _); reflexivity|].
  unfold find_node in *; simpl. destruct (String.eqb (nkey m) k); [reflexivity|exact IH].
Qed.

Lemma length_unlink k l : In k (map nkey l) -> S (length (unlink k l)) = length l.
Proof.
  induction l as [|n t IH]; intros H; simpl in *; [contradiction|].
  destruct (String.eqb_spec (nkey n) k) as [E|E]; [reflexivity|].
  simpl. f_equal. apply IH. destruct H as [H|H]; [contradiction|exact H].
Qed.

Lemma NoDup_snoc {A} (l : list A) x : List.NoDup l -> ~ In x l -> List.NoDup (l ++ [x]).
Proof.
  induction l as [|y t IH]; intros Hnd Hx; simpl; [constructor; [auto|constructor]|].
  inversion Hnd as [|? ? Hy Ht]; subst. constructor.
  - intros Hin. apply in_app_or in Hin as [Hin|[Hin|[]]]; [contradiction|].
    subst. apply Hx. left. reflexivity.
  - apply IH; [exact Ht|]. intros Hin. apply Hx. right. exact Hin.
Qed.

Lemma SS_snoc {A} (R : A -> A -> Prop) l x :
  StronglySorted R l -> (forall y, In y l -> R y x) -> StronglySorted R (l ++ [x]).
Proof.
  induction l as [|y t IH]; intros Hs Hx; simpl.
  - constructor; constructor.
  - inversion Hs as [|? ? Ht Hall]; subst. constructor.
    + apply IH; [exact Ht|]. intros z Hz. apply Hx. right. exact Hz.
    + apply Forall_app. split; [exact Hall|]. constructor; [apply Hx; left; reflexivity|constructor].
Qed.

Lemma SS_impl {A} (R R' : A -> A -> Prop) l :
  (forall x y, In x l -> In y l -> R x y -> R' x y) ->
  StronglySorted R l -> StronglySorted R' l.
Proof.
  induction l as [|y t IH]; intros Himp Hs; [constructor|].
  inversion Hs as [|? ? Ht Hall]; subst. constructor.
  - apply IH; [|exact Ht]. intros a b Ha Hb. apply Himp; right; assumption.
  - rewrite List.Forall_forall in *. intros z Hz. apply Himp; [left; reflexivity|right; exact Hz|].
    apply Hall. exact Hz.
Qed.

Lemma SS_unlink (R : node -> node -> Prop) k l :
  StronglySorted R l -> StronglySorted R (unlink k l).
Proof.
  induction l as [|n t IH]; intros Hs; simpl; [constructor|].
  inversion Hs as [|? ? Ht Hall]; subst.
  destruct (String.eqb (nkey n) k); [exact Ht|]. constructor; [auto|].
  rewrite List.Forall_forall in *. intros z Hz. apply Hall. eapply unlink_in; eauto.
Qed.

Lemma last_index_from_app k l1 l2 i acc :
  last_index_from k (l1 ++ l2) i acc =
  last_index_from k l2 (i + length l1) (last_index_from k l1 i acc).
Proof.
  revert i acc. induction l1 as [|x t IH]; intros i acc; simpl.
  - rewrite Nat.add_0_r. reflexivity.
  - rewrite IH. f_equal. lia.
Qed.

Lemma last_index_from_notin k l i acc :
  ~ In k l -> last_index_from k l i acc = acc.
Proof.
  revert i acc. induction l as [|x t IH]; intros i acc H; simpl; [reflexivity|].
  destruct (String.eqb_spec x k) as [E|E].
  - exfalso. apply H. left. exact E.
  - apply IH. intros Hk. apply H. right. exact Hk.
Qed.

Lemma last_index_from_lt k l i acc :
  In k l -> (last_index_from k l i acc < i + length l)%nat.
Proof.
  revert i acc. induction l as [|x t IH]; intros i acc H; simpl in *; [contradiction|].
  destruct (in_dec string_dec k t) as [Hin|Hnin].
  - specialize (IH (S i) (if String.eqb x k then i else acc) Hin). lia.
  - destruct H as [<-|H]; [|contradiction].
    rewrite String.eqb_refl, last_index_from_notin by exact Hnin. lia.
Qed.

Lemma last_index_snoc_eq k log : last_index k (log ++ [k]) = length log.
Proof.
  unfold last_index. rewrite last_index_from_app. simpl. rewrite String.eqb_refl. lia.
Qed.

Lemma last_index_snoc_ne k k' log :
  k' <> k -> last_index k' (log ++ [k]) = last_index k' log.
Proof.
  intros Hne. unfold last_index. rewrite last_index_from_app. simpl.
  destruct (String.eqb_spec k k') as [E|E]; [congruence|reflexivity].
Qed.

Lemma last_index_lt k log : In k log -> (last_index k log < length log)%nat.
Proof. intros H. unfold last_index. pose proof (last_index_from_lt k log 0 0 H). lia. Qed.

Lemma touch_inv (k : string) (n : node) (c : LRUCache) :
  lru_inv c -> nkey n = k ->
  lru_inv (lru_touch k n c)
  /\ length (lru_list (lru_touch k n c)) =
     match lru_store c !! k with Some _ => length (lru_list c) | None => S (length (lru_list c)) end.
Proof.
  intros [Hnd [Hst Hsz]] Hk. unfold lru_inv, lru_touch; simpl.
  destruct (unlink_nodup k _ Hnd) as [Hnd' Hout].
  split; [split; [|split]|].
  - rewrite List.map_app. simpl. apply NoDup_snoc; [exact Hnd'|]. rewrite Hk. exact Hout.
  - intros k'. rewrite find_node_snoc.
    destruct (decide (k' = k)) as [->|Hne].
    + rewrite lookup_insert_eq, find_node_none by exact Hout.
      rewrite Hk, String.eqb_refl. reflexivity.
    + rewrite lookup_insert_ne by auto. rewrite find_unlink_ne by exact Hne.
      rewrite <- Hst. destruct (lru_store c !! k'); [reflexivity|].
      destruct (String.eqb_spec (nkey n) k'); [congruence|reflexivity].
  - rewrite map_size_insert, length_app, Hst. simpl.
    destruct (find_node k (lru_list c)) as [m|] eqn:Ef; simpl.
    + apply find_node_spec in Ef as [Hin Hmk].
      assert (Hkin : In k (map nkey (lru_list c))) by (rewrite <- Hmk; apply in_map; exact Hin).
      rewrite Hsz. pose proof (length_unlink k _ Hkin). lia.
    + assert (Hkn : ~ In k (map nkey (lru_list c))).
      { intros Hkin. destruct (find_node_some_in k _ Hkin) as [m Hm]. congruence. }
      rewrite unlink_not_in by exact Hkn. lia.
  - rewrite length_app, Hst. simpl.
    destruct (find_node k (lru_list c)) as [m|] eqn:Ef.
    + apply find_node_spec in Ef as [Hin Hmk].
      assert (Hkin : In k (map nkey (lru_list c))) by (rewrite <- Hmk; apply in_map; exact Hin).
      pose proof (length_unlink k _ Hkin). lia.
    + assert (Hkn : ~ In k (map nkey (lru_list c))).
      { intros Hkin. destruct (find_node_some_in k _ Hkin) as [m Hm]. congruence. }
      rewrite unlink_not_in by exact Hkn. lia.
Qed.

Lemma touch_rec (k : string) (n : node) (c : LRUCache) (log : list string) :
  lru_inv c -> lru_rec_inv log c -> nkey n = k -> lru_rec_inv (log ++ [k]) (lru_touch k n c).
Proof.
  intros [Hnd _] [Hss Hkeys] Hk. unfold lru_rec_inv, lru_touch; simpl.
  destruct (unlink_nodup k _ Hnd) as [_ Hout].
  assert (Hne : forall x, In x (unlink k (lru_list c)) -> nkey x <> k).
  { intros x Hx E. apply Hout. apply in_map_iff. exists x. auto. }
  split.
  - apply SS_snoc.
    + apply (SS_impl (fun a b => (last_index (nkey a) log < last_index (nkey b) log)%nat)).
      * intros x y Hx Hy Hxy. rewrite !last_index_snoc_ne by auto. exact Hxy.
      * apply SS_unlink. exact Hss.
    + intros y Hy. rewrite last_index_snoc_ne by auto. rewrite Hk, last_index_snoc_eq.
      apply last_index_lt, Hkeys. eapply unlink_in; eauto.
  - intros m Hm. apply in_app_or in Hm as [Hm|[<-|[]]].
    + apply in_or_app. left. apply Hkeys. eapply unlink_in; eauto.
    + apply in_or_app. right. left. symmetry. exact Hk.
Qed.

Lemma evict_head (c : LRUCache) (h : node) (t : list node) :
  lru_inv c -> lru_list c = h :: t ->
  lru_delete h c = (mkLRUCache (delete (nkey h) (lru_store c)) t (capacity c), Ret tt)
  /\ lru_inv (mkLRUCache (delete (nkey h) (lru_store c)) t (capacity c))
  /\ length t = pred (length (lru_list c))
  /\ (forall log, lru_rec_inv log c ->
        lru_rec_inv log (mkLRUCache (delete (nkey h) (lru_store c)) t (capacity c))).
Proof.
  intros [Hnd [Hst Hsz]] Hl.
  assert (Hh : lru_store c !! nkey h = Some h).
  { rewrite Hst, Hl. unfold find_node. simpl. rewrite String.eqb_refl. reflexivity. }
  rewrite Hl in Hnd. simpl in Hnd. inversion Hnd as [|? ? Hhn Htnd]; subst.
  split; [|split; [|split]].
  - unfold lru_delete. rewrite Hh, Hl. simpl. rewrite String.eqb_refl. reflexivity.
  - unfold lru_inv; simpl. split; [exact Htnd|]. split.
    + intros k'. destruct (decide (k' = nkey h)) as [->|Hne].
      * rewrite lookup_delete_eq. symmetry. apply find_node_none. exact Hhn.
      * rewrite lookup_delete_ne by auto. rewrite Hst, Hl. unfold find_node; simpl.
        destruct (String.eqb_spec (nkey h) k'); [congruence|reflexivity].
    + rewrite map_size_delete, Hh, Hsz, Hl. reflexivity.
  - rewrite Hl. reflexivity.
  - intros log [Hss Hkeys]. unfold lru_rec_inv; simpl. rewrite Hl in Hss, Hkeys.
    inversion Hss; subst. split; [assumption|].
    intros m Hm. apply Hkeys. right. exact Hm.
Qed.

Lemma get_spec (k : string) (c : LRUCache) :
  lru_inv c ->
  lru_get k c = match lru_store c !! k with
                | None => (c, Ret (JNull, false))
                | Some n => (lru_touch k n c, Ret (nvalue n, true))
                end.
Proof.
  intros Hinv. pose proof Hinv as [Hnd [Hst Hsz]].
  unfold lru_get. destruct (lru_store c !! k) as [n|] eqn:Hk; [|reflexivity].
  assert (Hnk : nkey n = k).
  { rewrite Hst in Hk. apply find_node_spec in Hk. tauto. }
  unfold lru_delete. rewrite Hnk, Hk. simpl.
  unfold lru_store_insert, lru_add_to_end, lru_touch; simpl.
  rewrite insert_delete_eq. reflexivity.
Qed.

Lemma set_spec (k : string) (v : json) (c : LRUCache) :
  lru_inv c ->
  lru_set k v c =
    (let c2 := lru_touch k (mkNode k v) c in
     if Z.ltb (capacity c2) (Z.of_nat (lru_size c2)) then
       match lru_list c2 with
       | node_to_delete :: _ => lru_delete node_to_delete c2
       | [] => (c2, Raise AttributeError)
       end
     else (c2, Ret tt)).
Proof.
  intros Hinv. pose proof Hinv as [Hnd [Hst Hsz]].
  unfold lru_set. destruct (lru_store c !! k) as [n|] eqn:Hk.
  - assert (Hnk : nkey n = k).
    { rewrite Hst in Hk. apply find_node_spec in Hk. tauto. }
    rewrite Hnk. unfold lru_delete. simpl. rewrite Hk. simpl.
    unfold lru_store_insert, lru_add_to_end, lru_touch; simpl.
    rewrite insert_delete_eq. reflexivity.
  - assert (Hkn : ~ In k (map nkey (lru_list c))).
    { intros Hkin. destruct (find_node_some_in k _ Hkin) as [m Hm].
      rewrite <- Hst in Hm. congruence. }
    unfold lru_store_insert, lru_add_to_end, lru_touch; simpl.
    rewrite unlink_not_in by exact Hkn. destruct c; reflexivity.
Qed.

Lemma run_inv (ops : list lru_op) (c : LRUCache) (log : list string) :
  lru_inv c -> lru_rec_inv log c -> lru_bound c ->
  exists c' log', lru_run c log ops = Some (c', log')
    /\ lru_inv c' /\ lru_rec_inv log' c' /\ lru_bound c' /\ capacity c' = capacity c.
Proof.
  revert c log. induction ops as [|o ops IH]; intros c log Hinv Hrec Hb; simpl.
  { exists c, log. auto. }
  pose proof Hinv as [Hnd [Hst Hsz]].
  destruct o as [k|k v].
  - rewrite (get_spec k c Hinv). destruct (lru_store c !! k) as [n|] eqn:Hk.
    + assert (Hnk : nkey n = k).
      { rewrite Hst in Hk. apply find_node_spec in Hk. tauto. }
      destruct (touch_inv k n c Hinv Hnk) as [Hinv2 Hlen2]. rewrite Hk in Hlen2.
      destruct (IH (lru_touch k n c) (log ++ [k]) Hinv2 (touch_rec k n c log Hinv Hrec Hnk))
        as [c' [log' [Hrun [Hi [Hr [Hb' Hcap]]]]]].
      * unfold lru_bound in *. rewrite Hlen2. exact Hb.
      * exists c', log'. rewrite Hrun. auto.
    + apply IH; assumption.
  - rewrite (set_spec k v c Hinv). cbv zeta.
    assert (Hnk : nkey (mkNode k v) = k) by reflexivity.
    destruct (touch_inv k _ c Hinv Hnk) as [Hinv2 Hlen2].
    pose proof (touch_rec k _ c log Hinv Hrec Hnk) as Hrec2.
    set (c2 := lru_touch k (mkNode k v) c) in *.
    assert (Hlen2' : (length (lru_list c2) <= S (length (lru_list c)))%nat)
      by (destruct (lru_store c !! k); lia).
    assert (Hcap2 : capacity c2 = capacity c) by reflexivity.
    assert (Hsize2 : lru_size c2 = length (lru_list c2)) by apply Hinv2.
    destruct (Z.ltb_spec (capacity c2) (Z.of_nat (lru_size c2))) as [Hover|Hok].
    + destruct (lru_list c2) as [|h t] eqn:Hl2.
      * exfalso. unfold c2, lru_touch in Hl2. simpl in Hl2.
        apply app_eq_nil in Hl2 as [_ H]. discriminate.
      * destruct (evict_head c2 h t Hinv2 Hl2) as [Hdel [Hinv3 [Hlen3 Hrec3]]].
        rewrite Hdel.
        destruct (IH _ (log ++ [k]) Hinv3 (Hrec3 _ Hrec2)) as [c' [log' [Hrun [Hi [Hr [Hb' Hcap]]]]]].
        -- unfold lru_bound in *; simpl. rewrite Hlen3, Hl2 in *. simpl in *. lia.
        -- exists c', log'. rewrite Hrun. split; [reflexivity|]. simpl in Hcap. auto.
    + destruct (IH c2 (log ++ [k]) Hinv2 Hrec2) as [c' [log' [Hrun [Hi [Hr [Hb' Hcap]]]]]].
      * unfold lru_bound. lia.
      * exists c', log'. rewrite Hrun. auto.
Qed.

End LRU.

(** ** C6: LRU capacity and eviction order *)

(** C6. For an LRU cache of capacity at least 1 and every sequence of
    [get]/[set] calls, no call raises, and on exit the size is at most the
    capacity. In that state, a [set] of an absent key on a full cache
    evicts a present key [e]: the new store is the old one without [e] and
    with the new key. Among the present keys, [e] has the oldest last use in
    the history of [set]s and successful [get]s. *)
Theorem lru_capacity_and_eviction (cap : Z) (ops : list lru_op) (Hcap : 1 <= cap) :
  exists c log, lru_run (lru_init cap) [] ops = Some (c, log)
    /\ Z.of_nat (lru_size c) <= cap
    /\ forall k v, lru_store c !! k = None -> Z.of_nat (lru_size c) = cap ->
         exists e c', lru_set k v c = (c', Ret tt)
           /\ is_Some (lru_store c !! e)
           /\ lru_store c' = <[k := mkNode k v]> (delete e (lru_store c))
           /\ forall k', k' <> e -> is_Some (lru_store c !! k') ->
                (last_index e log < last_index k' log)%nat.
Proof.
  assert (Hi0 : lru_inv (lru_init cap)).
  { unfold lru_inv; simpl. split; [constructor|]. split; [|reflexivity].
    intros k. rewrite lookup_empty. reflexivity. }
  assert (Hr0 : lru_rec_inv [] (lru_init cap)).
  { unfold lru_rec_inv; simpl. split; [constructor|]. intros n []. }
  assert (Hb0 : lru_bound (lru_init cap)) by (unfold lru_bound; simpl; lia).
  destruct (LRU.run_inv ops _ _ Hi0 Hr0 Hb0)
    as [c [log [Hrun [Hinv [Hrec [Hb Hc]]]]]].
  simpl in Hc. exists c, log. split; [exact Hrun|].
  pose proof Hinv as [Hnd [Hst Hsz]].
  unfold lru_bound in Hb. unfold lru_size. rewrite Hsz. split; [lia|].
  intros k v Hk Hfull.
  assert (Hkn : ~ In k (map nkey (lru_list c))).
  { intros Hkin. destruct (LRU.find_node_some_in k _ Hkin) as [m Hm].
    rewrite <- Hst in Hm. congruence. }
  destruct (lru_list c) as [|h t] eqn:Hl; [simpl in Hfull; lia|].
  assert (Hh : lru_store c !! nkey h = Some h).
  { rewrite Hst. unfold find_node. simpl. rewrite String.eqb_refl. reflexivity. }
  assert (Hne : k <> nkey h) by (intros ->; congruence).
  rewrite (LRU.set_spec k v c Hinv). cbv zeta.
  assert (Hnk : nkey (mkNode k v) = k) by reflexivity.
  destruct (LRU.touch_inv k _ c Hinv Hnk) as [Hinv2 Hlen2].
  rewrite Hk in Hlen2.
  assert (Hl2 : lru_list (lru_touch k (mkNode k v) c) = h :: (t ++ [mkNode k v])).
  { unfold lru_touch; simpl. rewrite Hl. rewrite LRU.unlink_not_in by exact Hkn. reflexivity. }
  assert (Hsize2 : lru_size (lru_touch k (mkNode k v) c)
                   = length (lru_list (lru_touch k (mkNode k v) c))) by apply Hinv2.
  destruct (Z.ltb_spec (capacity (lru_touch k (mkNode k v) c))
                       (Z.of_nat (lru_size (lru_touch k (mkNode k v) c)))) as [_|Hle].
  2:{ exfalso. rewrite Hsize2, Hlen2, Hl in Hle. simpl in Hle, Hfull. lia. }
  rewrite Hl2.
  destruct (LRU.evict_head _ h (t ++ [mkNode k v]) Hinv2 Hl2) as [Hdel _].
  exists (nkey h), (mkLRUCache (delete (nkey h) (lru_store (lru_touch k (mkNode k v) c)))
                      (t ++ [mkNode k v]) (capacity (lru_touch k (mkNode k v) c))).
  split; [exact Hdel|]. split; [rewrite Hh; eauto|]. split.
  - simpl. rewrite delete_insert_ne by congruence. reflexivity.
  - intros k' Hk'e [m Hm]. rewrite Hst in Hm.
    destruct (LRU.find_node_spec _ _ _ Hm) as [Hin Hmk].
    destruct Hin as [->|Hin]; [congruence|].
    destruct Hrec as [Hss _]. rewrite Hl in Hss.
    apply StronglySorted_inv in Hss as [_ Hall].
    rewrite List.Forall_forall in Hall. subst k'. apply Hall. exact Hin.
Qed.

(** ** C5: request counters of a proxy node *)

(** C5. For a request that parses as [GET resource/key], with the cache
    in a consistent state: [total_requests] goes up by one, and this is
    recorded before the cache lookup. Then either [cache_hits] goes up by
    one and [origin_fetches] is unchanged, or [cache_misses] and
    [origin_fetches] both go up by one. This holds whatever the origin
    replies, even when the origin fetch raises. A request answered inside
    the parsing block (METRICS, WRONG_METHOD, BAD_REQUEST) and an empty
    read leave the node unchanged. *)
Theorem handle_connection_counters
  (loads : string -> string + json) (dumps : json -> string) (estr : exc -> string)
  (p : ProxyNode) (raw : recv_data) (now_get now_set : Z) (reply : origin_reply)
  (p' : ProxyNode) (tr : list pn_event) (r : res unit) :
  cache_ok (pn_cache p) ->
  handle_connection loads dumps estr p raw now_get now_set reply = (p', tr, r) ->
  match parse_request dumps estr p raw with
  | inl _ => p' = p
  | inr (resource, key) =>
      total_requests (pn_metrics p') = total_requests (pn_metrics p) + 1
      /\ firstn 2 tr = [EvRecordRequest; EvCacheGet (build_cache_key resource key)]
      /\ ((cache_hits (pn_metrics p') = cache_hits (pn_metrics p) + 1
           /\ cache_misses (pn_metrics p') = cache_misses (pn_metrics p)
           /\ origin_fetches (pn_metrics p') = origin_fetches (pn_metrics p))
          \/ (cache_hits (pn_metrics p') = cache_hits (pn_metrics p)
              /\ cache_misses (pn_metrics p') = cache_misses (pn_metrics p) + 1
              /\ origin_fetches (pn_metrics p') = origin_fetches (pn_metrics p) + 1))
  end.
Proof.
  intros Hok Hrun.
  assert (Hget : forall now k, exists c1 v b,
             cache_get now k (pn_cache p) = (c1, Ret (v, b))).
  { intros now k. unfold cache_get. destruct (pn_cache p) as [t|l]; simpl in Hok.
    - destruct (ttl_get now k t) as [[v b] t']. eauto.
    - rewrite (LRU.get_spec k l Hok). destruct (lru_store l !! k); eauto. }
  unfold handle_connection in Hrun.
  destruct raw as [| |text].
  - simpl. congruence.
  - simpl in *. congruence.
  - destruct (parse_request dumps estr p (RecvText text)) as [msg|[resource key]].
    + congruence.
    + destruct (Hget now_get (build_cache_key resource key)) as [c1 [v [b Hc]]].
      rewrite Hc in Hrun. destruct b.
      * inversion Hrun; subst; simpl. split; [reflexivity|]. split; [reflexivity|].
        left. auto.
      * destruct (fetch_from_origin loads reply) as [[value status]|e].
        -- destruct (String.eqb status "OK").
           ++ destruct (cache_set now_set (build_cache_key resource key) value c1)
                as [c3 [u|e]].
              ** inversion Hrun; subst; simpl. split; [reflexivity|].
                 split; [reflexivity|]. right. auto.
              ** inversion Hrun; subst; simpl. split; [reflexivity|].
                 split; [reflexivity|]. right. auto.
           ++ inversion Hrun; subst; simpl. split; [reflexivity|].
              split; [reflexivity|]. right. auto.
        -- inversion Hrun; subst; simpl. split; [reflexivity|].
           split; [reflexivity|]. right. auto.
Qed.

Lemma handle_connection_counters_witness :
  cache_ok (pn_cache pn_example)
  /\ parse_request dumps_stub exc_name pn_example req_example = inr ("users", "1")
  /\ total_requests (pn_metrics (fst (fst hc_example)))
     = total_requests (pn_metrics pn_example) + 1.
Proof.
  assert (Hok : cache_ok (pn_cache pn_example)) by (simpl; exact I).
  assert (Hp : parse_request dumps_stub exc_name pn_example req_example = inr ("users", "1"))
    by (vm_compute; reflexivity).
  split; [exact Hok|]. split; [exact Hp|].
  pose proof (handle_connection_counters (loads_table []) dumps_stub exc_name pn_example
                req_example 0 0 OConnectFail (fst (fst hc_example)) (snd (fst hc_example))
                (snd hc_example) Hok ltac:(vm_compute; reflexivity)) as H.
  rewrite Hp in H. exact (proj1 H).
Defined.

Lemma lru_capacity_and_eviction_witness :
  1 <= 2 /\
  exists c log, lru_run (lru_init 2) [] [LSet "a" (JInt 1); LSet "b" (JInt 2); LGet "a";
                                          LSet "c" (JInt 3)] = Some (c, log)
    /\ Z.of_nat (lru_size c) <= 2.
Proof.
  assert (H : 1 <= 2) by lia. split; [exact H|].
  destruct (lru_capacity_and_eviction 2 [LSet "a" (JInt 1); LSet "b" (JInt 2); LGet "a";
                                          LSet "c" (JInt 3)] H) as [c [log [H1 [H2 _]]]].
  exists c, log. split; [exact H1|exact H2].
Defined.

(* ------------------------------------------------------------------ *)
(** ** Further properties of the code *)

Lemma split_all_no (c : ascii) (s : string) :
  has_char c s = false -> split_all c s = [s].
Proof.
  induction s as [|a t IH]; simpl; [reflexivity|].
  intros H. apply orb_false_iff in H as [Ha Ht].
  rewrite Ha, IH by exact Ht. reflexivity.
Qed.

Lemma split_all_app (c : ascii) (s1 s2 : string) :
  has_char c s1 = false ->
  split_all c (s1 +s+ String c s2) = s1 :: split_all c s2.
Proof.
  induction s1 as [|a t IH]; simpl; intros H.
  - rewrite Ascii.eqb_refl. reflexivity.
  - apply orb_false_iff in H as [Ha Ht]. rewrite Ha, IH by exact Ht. reflexivity.
Qed.

Lemma split_once_no (c : ascii) (s : string) :
  has_char c s = false -> split_once c s = [s].
Proof.
  induction s as [|a t IH]; simpl; [reflexivity|].
  intros H. apply orb_false_iff in H as [Ha Ht].
  rewrite Ha, IH by exact Ht. reflexivity.
Qed.

Lemma split_once_app (c : ascii) (s1 s2 : string) :
  has_char c s1 = false ->
  split_once c (s1 +s+ String c s2) = [s1; s2].
Proof.
  induction s1 as [|a t IH]; simpl; intros H.
  - rewrite Ascii.eqb_refl. reflexivity.
  - apply orb_false_iff in H as [Ha Ht]. rewrite Ha, IH by exact Ht. reflexivity.
Qed.

Lemma list_ascii_app (s1 s2 : string) :
  list_ascii_of_string (s1 +s+ s2) = list_ascii_of_string s1 ++ list_ascii_of_string s2.
Proof. induction s1 as [|a t IH]; simpl; [reflexivity|]. f_equal. exact IH. Qed.

Lemma has_space_in (s : string) (a : ascii) :
  has_space s = false -> In a (list_ascii_of_string s) -> is_py_space a = false.
Proof.
  induction s as [|b t IH]; simpl; [tauto|].
  intros H [->|Hin]; apply orb_false_iff in H as [Hb Ht]; auto.
Qed.

Lemma has_space_char (s : string) : has_space s = false -> has_char " "%char s = false.
Proof.
  induction s as [|b t IH]; simpl; [reflexivity|].
  intros H. apply orb_false_iff in H as [Hb Ht]. rewrite IH by exact Ht.
  destruct (Ascii.eqb_spec b " "%char) as [->|]; [discriminate|reflexivity].
Qed.

Lemma has_char_app (c : ascii) (s1 s2 : string) :
  has_char c (s1 +s+ s2) = has_char c s1 || has_char c s2.
Proof. induction s1 as [|a t IH]; simpl; [reflexivity|]. rewrite IH, orb_assoc. reflexivity. Qed.

Lemma has_space_app (s1 s2 : string) :
  has_space (s1 +s+ s2) = has_space s1 || has_space s2.
Proof. induction s1 as [|a t IH]; simpl; [reflexivity|]. rewrite IH, orb_assoc. reflexivity. Qed.

(** [strip] of [s + "\n"] is [s] when [s] starts and ends with a character
    [strip] keeps. *)
Lemma strip_newline (s : string) (a z : ascii) (l zs : list ascii) :
  list_ascii_of_string s = a :: l -> is_py_space a = false ->
  rev (list_ascii_of_string s) = z :: zs -> is_py_space z = false ->
  strip (s +s+ newline) = s.
Proof.
  intros Hs Ha Hr Hz.
  assert (Hl : lstrip (s +s+ newline) = s +s+ newline).
  { destruct s as [|c t]; [discriminate|]. simpl in Hs. injection Hs as -> _.
    simpl. rewrite Ha. reflexivity. }
  unfold strip. rewrite Hl. unfold rstrip.
  rewrite list_ascii_app. rewrite rev_app_distr, Hr.
  simpl. rewrite Hz.
  change (String z (string_of_list_ascii zs)) with (string_of_list_ascii (z :: zs)).
  rewrite <- Hr.
  rewrite list_ascii_of_string_of_list_ascii, rev_involutive, string_of_list_ascii_of_string.
  reflexivity.
Qed.

Lemma append_cons (a : ascii) (s1 s2 : string) :
  String a s1 +s+ s2 = String a (s1 +s+ s2).
Proof. reflexivity. Qed.

Lemma append_assoc3 (s1 s2 s3 : string) :
  (s1 +s+ s2) +s+ s3 = s1 +s+ s2 +s+ s3.
Proof.
  induction s1 as [|a t IH]; [reflexivity|].
  rewrite !append_cons, IH. reflexivity.
Qed.

Lemma strip_build_request (path : string) :
  has_space path = false -> path <> "" ->
  strip (build_request path) = "GET " +s+ path.
Proof.
  intros Hsp Hne. unfold build_request. rewrite <- append_assoc3.
  destruct (rev (list_ascii_of_string path)) as [|z zs] eqn:Hr.
  { destruct path as [|c t]; [congruence|]. simpl in Hr.
    destruct (rev (list_ascii_of_string t)); discriminate. }
  apply (strip_newline _ "G"%char z (list_ascii_of_string ("ET " +s+ path))
           (zs ++ rev (list_ascii_of_string "GET "))).
  - reflexivity.
  - reflexivity.
  - rewrite list_ascii_app, rev_app_distr, Hr. reflexivity.
  - apply (has_space_in path); [exact Hsp|]. apply in_rev. rewrite Hr. left. reflexivity.
Qed.

(** The proxy's parse of the line the client sends for a path. *)
Lemma parse_build_request (dumps : json -> string) (estr : exc -> string)
  (p : ProxyNode) (path : string) :
  has_space path = false -> path <> "" ->
  parse_request dumps estr p (RecvText (build_request path)) =
  match unpack2 (split_once "/"%char path) with
  | Raise e => inl (build_response dumps p "BAD_REQUEST" (JStr (estr e)) false)
  | Ret rk => inr rk
  end.
Proof.
  intros Hsp Hne. unfold parse_request. rewrite strip_build_request by assumption.
  change ("GET " +s+ path) with ("GET" +s+ String " "%char path).
  rewrite split_all_app by reflexivity.
  rewrite split_all_no by (apply has_space_char; exact Hsp).
  reflexivity.
Qed.

(** X1: a client path [resource/key] without whitespace reaches the proxy's
    cache as the key [path] itself; a path without ["/"] is answered
    BAD_REQUEST with the [ValueError] of the unpacking. *)
Theorem client_path_is_cache_key (dumps : json -> string) (estr : exc -> string)
  (p : ProxyNode) (path : string)
  (Hsp : has_space path = false) (Hne : path <> "") :
  (forall resource key, has_char "/"%char resource = false ->
     path = resource +s+ "/" +s+ key ->
     parse_request dumps estr p (RecvText (build_request path)) = inr (resource, key)
     /\ build_cache_key resource key = path)
  /\ (has_char "/"%char path = false ->
      parse_request dumps estr p (RecvText (build_request path))
      = inl (build_response dumps p "BAD_REQUEST" (JStr (estr ValueError)) false)).
Proof.
  rewrite parse_build_request by assumption. split.
  - intros resource key Hr ->. change ("/" +s+ key) with (String "/"%char key).
    rewrite split_once_app by exact Hr. split; reflexivity.
  - intros Hn. rewrite split_once_no by exact Hn. reflexivity.
Qed.

Lemma client_path_is_cache_key_witness :
  has_space "users/1" = false /\ "users/1" <> "" /\
  parse_request dumps_stub exc_name pn_example (RecvText (build_request "users/1"))
  = inr ("users", "1").
Proof.
  assert (H1 : has_space "users/1" = false) by reflexivity.
  assert (H2 : "users/1" <> "") by discriminate.
  split; [exact H1|]. split; [exact H2|].
  destruct (client_path_is_cache_key dumps_stub exc_name pn_example "users/1" H1 H2)
    as [H _].
  exact (proj1 (H "users" "1" eq_refl eq_refl)).
Defined.

(** X2: the origin server stops (the exception leaves its [while True] loop)
    on a request line with no space, and on a GET whose URL has no ["/"]. *)
Theorem origin_stops_on_malformed (dumps : json -> string)
  (load_file : string -> string + json) (text path : string) :
  (has_char " "%char (strip text) = false ->
   origin_handle dumps load_file (RecvText text) = Raise ValueError)
  /\ (has_space path = false -> path <> "" -> has_char "/"%char path = false ->
      origin_handle dumps load_file (RecvText (build_request path)) = Raise ValueError).
Proof.
  split.
  - intros H. unfold origin_handle. rewrite split_all_no by exact H. reflexivity.
  - intros Hsp Hne Hn. unfold origin_handle. rewrite strip_build_request by assumption.
    change ("GET " +s+ path) with ("GET" +s+ String " "%char path).
    rewrite split_all_app by reflexivity.
    rewrite split_all_no by (apply has_space_char; exact Hsp). simpl.
    rewrite split_once_no by exact Hn. reflexivity.
Qed.

Lemma lru_set_hit (k : string) (v : json) (c : LRUCache) :
  lru_inv c -> lru_bound c -> 1 <= capacity c ->
  exists c', lru_set k v c = (c', Ret tt)
    /\ lru_store c' !! k = Some (mkNode k v)
    /\ lru_inv c' /\ lru_bound c' /\ capacity c' = capacity c
    /\ (forall k', k' <> k -> is_Some (lru_store c !! k') ->
          lru_store c' !! k' = lru_store c !! k' \/ lru_store c' !! k' = None).
Proof.
  intros Hinv Hb Hcap. pose proof Hinv as [Hnd [Hst Hsz]].
  rewrite (LRU.set_spec k v c Hinv). cbv zeta.
  assert (Hnk : nkey (mkNode k v) = k) by reflexivity.
  destruct (LRU.touch_inv k _ c Hinv Hnk) as [Hinv2 Hlen2].
  set (n := mkNode k v) in *.
  set (c2 := lru_touch k n c) in *.
  assert (Hk2 : lru_store c2 !! k = Some n) by (unfold c2, lru_touch; simpl; apply lookup_insert_eq).
  assert (Hne2 : forall k', k' <> k -> lru_store c2 !! k' = lru_store c !! k')
    by (intros k' Hk'; unfold c2, lru_touch; simpl; apply lookup_insert_ne; congruence).
  assert (Hlen2' : (length (lru_list c2) <= S (length (lru_list c)))%nat)
    by (destruct (lru_store c !! k); lia).
  assert (Hsize2 : lru_size c2 = length (lru_list c2)) by apply Hinv2.
  unfold lru_bound in Hb.
  destruct (Z.ltb_spec (capacity c2) (Z.of_nat (lru_size c2))) as [Hover|Hok].
  - assert (Hl2e : lru_list c2 = unlink k (lru_list c) ++ [n]) by reflexivity.
    destruct (lru_list c2) as [|h t] eqn:Hl2.
    { exfalso. symmetry in Hl2e. apply app_eq_nil in Hl2e as [_ H]. discriminate. }
    destruct (LRU.evict_head c2 h t Hinv2 Hl2) as [Hdel [Hinv3 [Hlen3 _]]].
    assert (Hhk : nkey h <> k).
    { intros Hh. destruct Hinv2 as [Hnd2 _]. rewrite Hl2 in Hnd2. simpl in Hnd2.
      apply List.NoDup_cons_iff in Hnd2 as [Hnotin _].
      destruct (unlink k (lru_list c)) as [|x u] eqn:Hu.
      - simpl in Hl2e. injection Hl2e as Hhn Ht. subst t.
        change (capacity c2) with (capacity c) in Hover.
        rewrite Hsize2 in Hover. simpl in Hover. lia.
      - simpl in Hl2e. injection Hl2e as Hhx Ht. apply Hnotin. rewrite Hh, <- Hnk.
        apply in_map. rewrite Ht. apply in_or_app. right. left. reflexivity. }
    rewrite Hdel. eexists. split; [reflexivity|]. simpl.
    split; [rewrite lookup_delete_ne by congruence; exact Hk2|].
    split; [exact Hinv3|]. split.
    + unfold lru_bound; simpl. change (capacity c2) with (capacity c).
      simpl in Hlen2'. lia.
    + split; [reflexivity|]. intros k' Hk' _.
      destruct (decide (k' = nkey h)) as [->|Hne].
      * right. apply lookup_delete_eq.
      * left. rewrite lookup_delete_ne by congruence. apply Hne2. exact Hk'.
  - eexists. split; [reflexivity|]. split; [exact Hk2|]. split; [exact Hinv2|].
    split; [unfold lru_bound; rewrite <- Hsize2; exact Hok|].
    split; [reflexivity|]. intros k' Hk' _. left. apply Hne2. exact Hk'.
Qed.

(** X3: on a consistent LRU cache within its capacity [>= 1], [set(k, v)]
    returns normally, a following [get(k)] returns [(v, True)], and every
    other key keeps its value unless it is the one evicted. *)
Theorem lru_set_then_get (k : string) (v : json) (c : LRUCache)
  (Hinv : lru_inv c) (Hb : lru_bound c) (Hcap : 1 <= capacity c) :
  exists c', lru_set k v c = (c', Ret tt)
    /\ (exists c'', lru_get k c' = (c'', Ret (v, true)))
    /\ (forall k', k' <> k -> is_Some (lru_store c !! k') ->
          lru_store c' !! k' = lru_store c !! k' \/ lru_store c' !! k' = None).
Proof.
  destruct (lru_set_hit k v c Hinv Hb Hcap) as [c' [Hs [Hk [Hinv' [_ [_ Hother]]]]]].
  exists c'. split; [exact Hs|]. split; [|exact Hother].
  rewrite (LRU.get_spec k c' Hinv'), Hk. eexists. reflexivity.
Qed.

(** X4: [get] of a present key returns its value, leaves the key-value
    contents unchanged and moves the key to the most-recently-used end of
    the usage list, the other keys keeping their order; [get] of an absent
    key returns [(None, False)] and changes nothing. *)
Theorem lru_get_promotes (k : string) (c : LRUCache) (Hinv : lru_inv c) :
  match lru_store c !! k with
  | Some n =>
      exists c', lru_get k c = (c', Ret (nvalue n, true))
        /\ lru_store c' = lru_store c
        /\ lru_list c' = unlink k (lru_list c) ++ [n]
        /\ lru_inv c' /\ length (lru_list c') = length (lru_list c)
  | None => lru_get k c = (c, Ret (JNull, false))
  end.
Proof.
  rewrite (LRU.get_spec k c Hinv). destruct (lru_store c !! k) as [n|] eqn:Hk; [|reflexivity].
  pose proof Hinv as [_ [Hst _]].
  assert (Hnk : nkey n = k) by (rewrite Hst in Hk; apply LRU.find_node_spec in Hk; tauto).
  destruct (LRU.touch_inv k n c Hinv Hnk) as [Hinv2 Hlen2]. rewrite Hk in Hlen2.
  exists (lru_touch k n c). split; [reflexivity|]. split.
  - unfold lru_touch; simpl. apply insert_id. exact Hk.
  - split; [reflexivity|]. split; assumption.
Qed.

(** X5: [set] of a key already present, on a consistent cache within its
    capacity, replaces its value, evicts nothing and keeps [size()]. *)
Theorem lru_set_existing (k : string) (v : json) (c : LRUCache)
  (Hinv : lru_inv c) (Hb : lru_bound c) (Hin : is_Some (lru_store c !! k)) :
  exists c', lru_set k v c = (c', Ret tt)
    /\ lru_store c' = <[k := mkNode k v]> (lru_store c)
    /\ lru_size c' = lru_size c.
Proof.
  destruct Hin as [m Hm].
  rewrite (LRU.set_spec k v c Hinv). cbv zeta.
  assert (Hnk : nkey (mkNode k v) = k) by reflexivity.
  destruct (LRU.touch_inv k _ c Hinv Hnk) as [Hinv2 Hlen2]. rewrite Hm in Hlen2.
  assert (Hsize2 : lru_size (lru_touch k (mkNode k v) c)
                   = length (lru_list (lru_touch k (mkNode k v) c))) by apply Hinv2.
  pose proof Hinv as [_ [_ Hsz]]. unfold lru_bound in Hb.
  destruct (Z.ltb_spec (capacity (lru_touch k (mkNode k v) c))
                       (Z.of_nat (lru_size (lru_touch k (mkNode k v) c)))) as [Hover|_].
  - exfalso. rewrite Hsize2, Hlen2 in Hover. simpl in Hover. lia.
  - eexists. split; [reflexivity|]. split; [reflexivity|].
    rewrite Hsize2, Hlen2. unfold lru_size. symmetry. exact Hsz.
Qed.

Lemma lru_set_empty_nonpos (k : string) (v : json) (cap : Z) :
  cap <= 0 -> lru_set k v (lru_init cap) = (lru_init cap, Ret tt).
Proof.
  intros Hcap. unfold lru_set, lru_init. simpl. rewrite lookup_empty. simpl.
  unfold lru_size, lru_store_insert, lru_add_to_end. simpl.
  rewrite map_size_insert, lookup_empty. simpl.
  unfold lru_delete. simpl. rewrite lookup_insert_eq, String.eqb_refl.
  rewrite delete_insert_eq, delete_empty, map_size_empty. change (Z.of_nat 1) with 1.
  destruct (Z.ltb_spec cap 1); [reflexivity|lia].
Qed.

(** X6: an LRU cache created with capacity [<= 0] never holds anything:
    every [set] returns normally and leaves it empty, so after any sequence
    of calls it is still the empty cache, and every [get] misses. *)
Theorem lru_nonpositive_capacity_empty (cap : Z) (ops : list lru_op) (Hcap : cap <= 0) :
  (exists log, lru_run (lru_init cap) [] ops = Some (lru_init cap, log))
  /\ forall k, lru_get k (lru_init cap) = (lru_init cap, Ret (JNull, false)).
Proof.
  assert (Hget : forall k, lru_get k (lru_init cap) = (lru_init cap, Ret (JNull, false))).
  { intros k. unfold lru_get. simpl. rewrite lookup_empty. reflexivity. }
  split; [|exact Hget].
  generalize (@nil string). induction ops as [|o ops IH]; intros log; simpl.
  - exists log. reflexivity.
  - destruct o as [k|k v].
    + rewrite Hget. apply IH.
    + rewrite lru_set_empty_nonpos by exact Hcap. apply IH.
Qed.

Lemma nth_map_seq0 {A} (f : nat -> A) (j k : nat) (d : A) :
  (j < k)%nat -> nth j (map f (seq 0 k)) d = f j.
Proof.
  intros H. rewrite (nth_indep _ d (f 0%nat)) by (rewrite length_map, length_seq; lia).
  rewrite map_nth, seq_nth by lia. reflexivity.
Qed.

(** Reading a list cyclically from position [i] for one lap gives its
    rotation. *)
Lemma cyclic_read_rotation {A} (l : list A) (d : A) (i : Z) :
  l <> [] ->
  map (fun x => nth (Z.to_nat ((i + Z.of_nat x) mod Z.of_nat (length l))) l d)
      (seq 0 (length l))
  = skipn (Z.to_nat (i mod Z.of_nat (length l))) l
    ++ firstn (Z.to_nat (i mod Z.of_nat (length l))) l.
Proof.
  intros Hne.
  assert (HN : (0 < length l)%nat) by (destruct l; [congruence|simpl; lia]).
  set (N := length l) in *.
  assert (HR : 0 <= i mod Z.of_nat N < Z.of_nat N) by (apply Z.mod_pos_bound; lia).
  set (r := Z.to_nat (i mod Z.of_nat N)).
  assert (Hr : (r < N)%nat) by lia.
  assert (Hr' : Z.of_nat r = i mod Z.of_nat N) by (unfold r; lia).
  apply (nth_ext _ _ d d).
  - rewrite length_map, length_seq, length_app, length_skipn, length_firstn. lia.
  - intros j Hj. rewrite length_map, length_seq in Hj.
    rewrite nth_map_seq0 by exact Hj.
    assert (Hm : (i + Z.of_nat j) mod Z.of_nat N = (i mod Z.of_nat N + Z.of_nat j) mod Z.of_nat N)
      by (rewrite Z.add_mod_idemp_l; [reflexivity|lia]).
    rewrite Hm.
    destruct (Nat.ltb_spec j (N - r)) as [Hlt|Hge].
    + rewrite app_nth1 by (rewrite length_skipn; lia).
      rewrite nth_skipn. f_equal.
      rewrite Z.mod_small by lia. lia.
    + rewrite app_nth2 by (rewrite length_skipn; lia).
      rewrite length_skipn, nth_firstn. change (length l) with N.
      rewrite (proj2 (Nat.ltb_lt _ _)) by lia.
      f_equal.
      rewrite <- (Z.mod_add _ (-1)) by lia.
      rewrite Z.mod_small by lia. lia.
Qed.

Lemma pick_round_robin (lb : LoadBalancer) (hs : list proxy) (i : Z) :
  lb_strategy lb = "round_robin" ->
  get_healthy_nodes (lb_node_manager lb) = Ret hs ->
  candidates lb hs <> [] ->
  pick_proxy (lb_with_index lb i) =
    (lb_with_index lb (i + 1),
     Ret (Some (nth (Z.to_nat (i mod Z.of_nat (length (candidates lb hs))))
                    (candidates lb hs) (""%string, 0)))).
Proof.
  intros Hs Hh Hne. unfold pick_proxy. simpl. rewrite Hh, Hs. simpl.
  change (match hs with [] => lb_proxy_list lb | _ => hs end) with (candidates lb hs).
  set (l := candidates lb hs) in *.
  assert (HN : (0 < length l)%nat) by (destruct l; [congruence|simpl; lia]).
  destruct (Z.eqb_spec (Z.of_nat (length l)) 0) as [H0|_]; [lia|].
  assert (HR : 0 <= i mod Z.of_nat (length l) < Z.of_nat (length l))
    by (apply Z.mod_pos_bound; lia).
  destruct (lookup_lt_is_Some_2 l (Z.to_nat (i mod Z.of_nat (length l)))) as [x Hx]; [lia|].
  rewrite Hx. rewrite (nth_lookup_Some l _ _ x Hx). reflexivity.
Qed.

Lemma pick_n_round_robin (lb : LoadBalancer) (hs : list proxy) (j : nat) (i : Z) :
  lb_strategy lb = "round_robin" ->
  get_healthy_nodes (lb_node_manager lb) = Ret hs ->
  candidates lb hs <> [] ->
  pick_n (lb_with_index lb i) j =
    (lb_with_index lb (i + Z.of_nat j),
     Ret (map (fun x => nth (Z.to_nat ((i + Z.of_nat x) mod Z.of_nat (length (candidates lb hs))))
                            (candidates lb hs) (""%string, 0)) (seq 0 j))).
Proof.
  intros Hs Hh Hne. revert i. induction j as [|j IH]; intros i.
  - simpl. rewrite Z.add_0_r. reflexivity.
  - cbn [pick_n]. rewrite (pick_round_robin lb hs i Hs Hh Hne).
    change (lb_with_index (lb_with_index lb i) (i + 1)) with (lb_with_index lb (i + 1)).
    rewrite IH.
    change (seq 0 (S j)) with (0%nat :: seq 1 j).
    rewrite <- seq_shift, map_cons, map_map.
    f_equal; [f_equal; lia|]. f_equal. f_equal.
    + rewrite Z.add_0_r. reflexivity.
    + apply map_ext. intros x. do 3 f_equal. lia.
Qed.

(** X7: with the round-robin strategy and a fixed set of candidates of size
    [n], [n] successive picks visit every candidate exactly once, in list
    order starting at [current_index mod n], and advance [current_index]
    by [n]. *)
Theorem round_robin_rotation (lb : LoadBalancer) (hs : list proxy)
  (Hs : lb_strategy lb = "round_robin")
  (Hh : get_healthy_nodes (lb_node_manager lb) = Ret hs)
  (Hne : candidates lb hs <> []) :
  pick_n lb (length (candidates lb hs)) =
    (lb_with_index lb (lb_current_index lb + Z.of_nat (length (candidates lb hs))),
     Ret (skipn (Z.to_nat (lb_current_index lb mod Z.of_nat (length (candidates lb hs))))
                (candidates lb hs)
          ++ firstn (Z.to_nat (lb_current_index lb mod Z.of_nat (length (candidates lb hs))))
                (candidates lb hs))).
Proof.
  assert (Hlb : lb = lb_with_index lb (lb_current_index lb)) by (destruct lb; reflexivity).
  rewrite Hlb at 1.
  rewrite (pick_n_round_robin lb hs _ _ Hs Hh Hne).
  rewrite cyclic_read_rotation by exact Hne. reflexivity.
Qed.

Lemma round_robin_rotation_witness :
  pick_n (lb_with_index (lb_init [P1; P2] "round_robin") 3) 2
  = (lb_with_index (lb_init [P1; P2] "round_robin") 5, Ret [P2; P1]).
Proof.
  set (lb := lb_with_index (lb_init [P1; P2] "round_robin") 3).
  assert (Hs : lb_strategy lb = "round_robin") by reflexivity.
  assert (Hh : get_healthy_nodes (lb_node_manager lb) = Ret [P1; P2]) by (vm_compute; reflexivity).
  assert (Hne : candidates lb [P1; P2] <> []) by discriminate.
  pose proof (round_robin_rotation lb [P1; P2] Hs Hh Hne) as H.
  exact H.
Defined.

Lemma mark_healthy_known (p : proxy) (nm : NodeManager) (h : health) :
  nm_nodes nm !! p = Some h ->
  mark_healthy p nm = Ret (mkNodeManager (nm_proxy_list nm) (<[p := mkHealth true 0]> (nm_nodes nm))).
Proof. intros H. unfold mark_healthy. rewrite H. reflexivity. Qed.

Lemma mark_unhealthy_known (p : proxy) (nm : NodeManager) (h : health) :
  nm_nodes nm !! p = Some h ->
  mark_unhealthy p nm =
    Ret (mkNodeManager (nm_proxy_list nm)
           (<[p := mkHealth (if Z.leb max_failures (failures h + 1) then false else healthy h)
                            (failures h + 1)]> (nm_nodes nm))).
Proof. intros H. unfold mark_unhealthy. rewrite H. reflexivity. Qed.

(** X8: one pass of the metrics loop over proxies that are all known to the
    registry, when no reply makes [request_metrics] raise: the pass
    completes; each polled proxy's slot then holds the snapshot it
    returned, or [None] when that snapshot is falsy, and a proxy that
    returned a non-empty snapshot is healthy with no failures; proxies
    outside the list keep their slot and health. *)
Theorem poll_proxies_complete (loads : string -> string + json)
  (lb : LoadBalancer) (replies : proxy -> proxy_reply) (l : list proxy)
  (Hknown : forall p, In p l -> is_Some (nm_nodes (lb_node_manager lb) !! p))
  (Hret : forall p, In p l -> exists m, request_metrics loads (replies p) = Ret m) :
  exists lb', poll_proxies loads lb replies l = (lb', Ret tt)
    /\ lb_proxy_list lb' = lb_proxy_list lb
    /\ lb_current_index lb' = lb_current_index lb
    /\ lb_strategy lb' = lb_strategy lb
    /\ (forall p m, In p l -> request_metrics loads (replies p) = Ret m ->
          lb_proxy_stats lb' !! p = Some (if truthy m then m else JNull)
          /\ (truthy m = true -> nm_nodes (lb_node_manager lb') !! p = Some (mkHealth true 0)))
    /\ (forall q, ~ In q l ->
          lb_proxy_stats lb' !! q = lb_proxy_stats lb !! q
          /\ nm_nodes (lb_node_manager lb') !! q = nm_nodes (lb_node_manager lb) !! q).
Proof.
  revert lb Hknown. induction l as [|p t IH]; intros lb Hknown.
  { exists lb. simpl. repeat split; try reflexivity; tauto. }
  destruct (Hret p (or_introl eq_refl)) as [m Hm].
  destruct (Hknown p (or_introl eq_refl)) as [h Hh].
  set (lb1 := lb_with_stats lb (<[p := if truthy m then m else JNull]> (lb_proxy_stats lb))).
  set (nm2 := mkNodeManager (nm_proxy_list (lb_node_manager lb))
                (<[p := if truthy m then mkHealth true 0
                        else mkHealth (if Z.leb max_failures (failures h + 1) then false
                                       else healthy h) (failures h + 1)]>
                   (nm_nodes (lb_node_manager lb)))).
  assert (Hstep : poll_proxies loads lb replies (p :: t)
                  = poll_proxies loads (lb_with_nm lb1 nm2) replies t).
  { simpl. rewrite Hm. fold lb1.
    destruct (truthy m) eqn:Hmt.
    - unfold lb_mark_healthy, mark_healthy. simpl. rewrite Hh. reflexivity.
    - unfold lb_mark_unhealthy, mark_unhealthy. simpl. rewrite Hh. reflexivity. }
  assert (Hknown2 : forall q, In q t -> is_Some (nm_nodes (lb_node_manager (lb_with_nm lb1 nm2)) !! q)).
  { intros q Hq. simpl. destruct (decide (q = p)) as [->|Hne].
    - rewrite lookup_insert_eq. eauto.
    - rewrite lookup_insert_ne by congruence. apply Hknown. right. exact Hq. }
  destruct (IH (fun q Hq => Hret q (or_intror Hq)) _ Hknown2)
    as [lb' [Hrun [Hpl [Hidx [Hst [Hin Hout]]]]]].
  exists lb'. rewrite Hstep. split; [exact Hrun|].
  split; [exact Hpl|]. split; [exact Hidx|]. split; [exact Hst|]. split.
  - intros q mq [<-|Hq] Hmq.
    + rewrite Hm in Hmq. injection Hmq as <-.
      destruct (in_dec (fun a b => decide (a = b)) p t) as [Hqt|Hqt].
      * apply Hin; [exact Hqt|exact Hm].
      * destruct (Hout p Hqt) as [Hs Hn]. rewrite Hs, Hn. simpl.
        rewrite !lookup_insert_eq. split; [reflexivity|].
        intros Ht. rewrite Ht. reflexivity.
    + apply Hin; assumption.
  - intros q Hq. destruct (Hout q (fun H => Hq (or_intror H))) as [Hs Hn].
    rewrite Hs, Hn. simpl.
    assert (Hne : q <> p) by (intros ->; apply Hq; left; reflexivity).
    rewrite !lookup_insert_ne by congruence. split; reflexivity.
Qed.

Lemma proxies_view_ok (lb : LoadBalancer) (l : list proxy) (acc : list (string * json)) :
  (forall p, In p l ->
     is_Some (nm_nodes (lb_node_manager lb) !! p) /\ is_Some (lb_proxy_stats lb !! p)) ->
  exists pv, proxies_view lb l acc = Ret pv.
Proof.
  revert acc. induction l as [|[h port] t IH]; intros acc Hk; simpl; [eauto|].
  destruct (Hk (h, port) (or_introl eq_refl)) as [[x Hx] [s Hs]].
  unfold is_healthy, stats_get. rewrite Hx, Hs.
  apply IH. intros q Hq. apply Hk. right. exact Hq.
Qed.

(** X9: a METRICS request to the load balancer, when every configured proxy
    is known to the registry and has a stats slot, is answered without
    contacting any proxy, and leaves the balancer unchanged (in particular
    [current_index] does not move). *)
Theorem lb_metrics_readonly (loads : string -> string + json) (dumps : json -> string)
  (lb : LoadBalancer) (text : string) (reply : proxy_reply)
  (Hm : strip text = "METRICS") (Hk : lb_known lb) :
  exists msg, handle_client loads dumps lb (RecvText text) reply = (lb, Ret (Some msg))
    /\ forall reply', handle_client loads dumps lb (RecvText text) reply'
                      = (lb, Ret (Some msg)).
Proof.
  destruct (proxies_view_ok lb (lb_proxy_list lb) [] Hk) as [pv Hpv].
  assert (H : forall r, handle_client loads dumps lb (RecvText text) r =
     (lb, Ret (Some (dumps (JObj [("status", JStr "OK");
        ("data", JObj [("strategy", JStr (lb_strategy lb));
                       ("current_index", JInt (lb_current_index lb));
                       ("proxies", JObj pv)])]) +s+ newline)))).
  { intros r. unfold handle_client. rewrite Hm. simpl. rewrite Hpv. reflexivity. }
  eexists. split; [apply H|]. intros r. apply H.
Qed.

(** X10: forwarding to a proxy known to the registry raises only when sending
    or reading fails with an I/O error.  A reply line that parses as JSON
    is passed on as its stripped text plus a newline, and resets the proxy
    to healthy with no failures; a failed connection, an empty reply or an
    unparsable line adds one failure (unhealthy from the third).  No other
    node, and nothing else of the balancer, changes. *)
Theorem forward_request_health (loads : string -> string + json) (dumps : json -> string)
  (lb : LoadBalancer) (p : proxy) (reply : proxy_reply) (h : health)
  (Hh : nm_nodes (lb_node_manager lb) !! p = Some h) (Hio : reply <> PIOError) :
  exists nodes' s,
    forward_request loads dumps lb p reply
      = (lb_with_nm lb (mkNodeManager (nm_proxy_list (lb_node_manager lb)) nodes'), Ret s)
    /\ (forall q, q <> p -> nodes' !! q = nm_nodes (lb_node_manager lb) !! q)
    /\ ((exists line j, reply = PReadLine line /\ line <> "" /\ loads (strip line) = inr j)
        -> nodes' !! p = Some (mkHealth true 0)
           /\ exists line, reply = PReadLine line /\ s = strip line +s+ newline)
    /\ ((exists err, reply = PConnectFail err) \/ reply = PReadLine ""
        \/ (exists line err, reply = PReadLine line /\ loads (strip line) = inl err)
        -> nodes' !! p = Some (mkHealth (if Z.leb max_failures (failures h + 1) then false
                                         else healthy h) (failures h + 1))).
Proof.
  set (hu := mkHealth (if Z.leb max_failures (failures h + 1) then false else healthy h)
                      (failures h + 1)).
  assert (Hfail : forall msg,
    after_mark (lb_mark_unhealthy lb p) lb msg =
      (lb_with_nm lb (mkNodeManager (nm_proxy_list (lb_node_manager lb))
                        (<[p := hu]> (nm_nodes (lb_node_manager lb)))), Ret msg)).
  { intros msg. unfold lb_mark_unhealthy. rewrite (mark_unhealthy_known p _ h Hh). reflexivity. }
  assert (Hok : forall msg,
    after_mark (lb_mark_healthy lb p) lb msg =
      (lb_with_nm lb (mkNodeManager (nm_proxy_list (lb_node_manager lb))
                        (<[p := mkHealth true 0]> (nm_nodes (lb_node_manager lb)))), Ret msg)).
  { intros msg. unfold lb_mark_healthy. rewrite (mark_healthy_known p _ h Hh). reflexivity. }
  assert (Hother : forall x q, q <> p ->
    (<[p := x]> (nm_nodes (lb_node_manager lb)) : gmap proxy health) !! q
      = nm_nodes (lb_node_manager lb) !! q)
    by (intros x q Hq; apply lookup_insert_ne; congruence).
  destruct reply as [err| |line]; [|congruence|].
  - eexists _, _. split; [simpl; apply Hfail|]. split; [apply Hother|]. split.
    + intros [line [j [Hr _]]]. discriminate.
    + intros _. apply lookup_insert_eq.
  - destruct (String.eqb_spec line "") as [->|Hne].
    + eexists _, _. split; [simpl; apply Hfail|]. split; [apply Hother|]. split.
      * intros [line' [j [Hr [Hne _]]]]. injection Hr as <-. congruence.
      * intros _. apply lookup_insert_eq.
    + destruct (loads (strip line)) as [e|j] eqn:Hl.
      * eexists _, _. split.
        { simpl. rewrite (proj2 (String.eqb_neq _ _) Hne), Hl. apply Hfail. }
        split; [apply Hother|]. split.
        -- intros [line' [j [Hr [_ Hj]]]]. injection Hr as <-. congruence.
        -- intros _. apply lookup_insert_eq.
      * eexists _, _. split.
        { simpl. rewrite (proj2 (String.eqb_neq _ _) Hne), Hl. apply Hok. }
        split; [apply Hother|]. split.
        -- intros _. split; [apply lookup_insert_eq|]. exists line. split; reflexivity.
        -- intros [[err' Hr]|[Hr|[line' [err' [Hr He]]]]]; try discriminate.
           ++ injection Hr as ->. congruence.
           ++ injection Hr as <-. congruence.
Qed.

(** X11: size accounting of the TTL cache: [set] grows [size()] by one
    exactly when the key was absent; [delete] of a key changes nothing
    exactly when the key is absent; [get(k)] keeps [ttl] and every other
    key, and drops [k] only when its expiry is strictly before [now], in
    which case it returns [(None, False)]. *)
Theorem ttl_size_accounting (now now' : Z) (k : string) (v : json) (c : TTLCache) :
  ttl_size (ttl_set now k v c)
    = match ttl_store c !! k with Some _ => ttl_size c | None => S (ttl_size c) end
  /\ (ttl_delete k c = c <-> ttl_store c !! k = None)
  /\ (let '(r, c') := ttl_get now' k c in
      ttl c' = ttl c
      /\ (forall k', k' <> k -> ttl_store c' !! k' = ttl_store c !! k')
      /\ (ttl_store c' !! k = ttl_store c !! k
          \/ (exists v' e, ttl_store c !! k = Some (v', e) /\ e < now'
                /\ ttl_store c' !! k = None /\ r = (JNull, false)))).
Proof.
  split; [|split].
  - unfold ttl_size, ttl_set; simpl. destruct (ttl_store c !! k) as [x|] eqn:Hk.
    + rewrite map_size_insert, Hk. reflexivity.
    + rewrite map_size_insert, Hk. reflexivity.
  - split.
    + intros H. rewrite <- H. unfold ttl_delete. simpl. apply lookup_delete_eq.
    + intros H. destruct c as [st t]. unfold ttl_delete. simpl in *.
      rewrite delete_id by exact H. reflexivity.
  - unfold ttl_get. destruct (ttl_store c !! k) as [[x e]|] eqn:Hk.
    + destruct (Z.ltb_spec e now') as [Hlt|Hge].
      * split; [reflexivity|]. split.
        -- intros k' Hk'. unfold ttl_delete; simpl. apply lookup_delete_ne. congruence.
        -- right. exists x, e. split; [reflexivity|]. split; [exact Hlt|].
           split; [apply lookup_delete_eq|reflexivity].
      * split; [reflexivity|]. split; [reflexivity|]. left. congruence.
    + split; [reflexivity|]. split; [reflexivity|]. left. congruence.
Qed.

(** X12: with non-negative counters, the [hit_rate] of the snapshot is the
    int [0] when there was no cache access, and otherwise a float between
    [0] and [1]. *)
Theorem report_hit_rate_bounds (m : ProxyMetrics)
  (Hh : 0 <= cache_hits m) (Hm : 0 <= cache_misses m) :
  (cache_hits m + cache_misses m = 0 /\ getitem (report m) "hit_rate" = Ret (JInt 0))
  \/ (cache_hits m + cache_misses m > 0 /\
      exists q, getitem (report m) "hit_rate" = Ret (JFloat q) /\ (0 <= q /\ q <= 1)%Q).
Proof.
  unfold report. cbn -[Z.add Qdiv inject_Z].
  destruct (Z.eqb_spec (cache_hits m + cache_misses m) 0) as [H0|H0].
  - left. split; [exact H0|reflexivity].
  - right. split; [lia|]. eexists. split; [reflexivity|].
    assert (Hpos : (0 < inject_Z (cache_hits m + cache_misses m))%Q)
      by (change 0%Q with (inject_Z 0); rewrite <- Zlt_Qlt; lia).
    split.
    + apply Qle_shift_div_l; [exact Hpos|]. rewrite Qmult_0_l.
      change 0%Q with (inject_Z 0). rewrite <- Zle_Qle. exact Hh.
    + apply Qle_shift_div_r; [exact Hpos|]. rewrite Qmult_1_l.
      rewrite <- Zle_Qle. lia.
Qed.

Lemma origin_build_request (dumps : json -> string) (load_file : string -> string + json)
  (resource key : string) :
  has_space (build_cache_key resource key) = false -> has_char "/"%char resource = false ->
  origin_handle dumps load_file (RecvText (build_request (build_cache_key resource key)))
  = match load_file (origin_filepath resource key) with
    | inr fetched_data => Ret (Some (origin_msg dumps "OK" fetched_data))
    | inl err => Ret (Some (origin_msg dumps "NOT_FOUND" (JStr ("An error occured: " +s+ err))))
    end.
Proof.
  intros Hsp Hr.
  assert (Hne : build_cache_key resource key <> "")
    by (unfold build_cache_key; destruct resource; discriminate).
  unfold origin_handle. rewrite strip_build_request by assumption.
  change ("GET " +s+ build_cache_key resource key)
    with ("GET" +s+ String " "%char (build_cache_key resource key)).
  rewrite split_all_app by reflexivity.
  rewrite split_all_no by (apply has_space_char; exact Hsp). simpl.
  unfold build_cache_key. change ("/" +s+ key) with (String "/"%char key).
  rewrite split_once_app by exact Hr. reflexivity.
Qed.

Lemma cache_key_split (r1 k1 r2 k2 : string) :
  has_char "/"%char r1 = false -> has_char "/"%char r2 = false ->
  build_cache_key r1 k1 = build_cache_key r2 k2 -> r1 = r2 /\ k1 = k2.
Proof.
  intros H1 H2 H. unfold build_cache_key in H.
  change ("/" +s+ k1) with (String "/"%char k1) in H.
  change ("/" +s+ k2) with (String "/"%char k2) in H.
  pose proof (split_once_app "/"%char r1 k1 H1) as E1.
  pose proof (split_once_app "/"%char r2 k2 H2) as E2.
  rewrite H, E2 in E1. injection E1 as -> ->. split; reflexivity.
Qed.

(** X13: the origin server names its file by concatenating resource and key
    without a separator, so two requests whose resource and key differ but
    concatenate to the same text are answered from the same file, although
    the proxy caches them under different keys. *)
Theorem origin_file_collision (dumps : json -> string) (load_file : string -> string + json)
  (r1 k1 r2 k2 : string)
  (Hs1 : has_space (build_cache_key r1 k1) = false)
  (Hs2 : has_space (build_cache_key r2 k2) = false)
  (Hr1 : has_char "/"%char r1 = false) (Hr2 : has_char "/"%char r2 = false)
  (Heq : r1 +s+ k1 = r2 +s+ k2) :
  origin_handle dumps load_file (RecvText (build_request (build_cache_key r1 k1)))
  = origin_handle dumps load_file (RecvText (build_request (build_cache_key r2 k2)))
  /\ (r1 <> r2 -> build_cache_key r1 k1 <> build_cache_key r2 k2).
Proof.
  split.
  - rewrite !origin_build_request by assumption.
    unfold origin_filepath.
    rewrite <- (append_assoc3 r1 k1), <- (append_assoc3 r2 k2), Heq. reflexivity.
  - intros Hne Hk. apply Hne. exact (proj1 (cache_key_split r1 k1 r2 k2 Hr1 Hr2 Hk)).
Qed.

Lemma parse_request_inr (dumps : json -> string) (estr : exc -> string)
  (p p' : ProxyNode) (raw : recv_data) (rk : string * string) :
  parse_request dumps estr p raw = inr rk -> parse_request dumps estr p' raw = inr rk.
Proof.
  unfold parse_request. destruct raw as [| |text]; try discriminate.
  destruct (String.eqb (strip text) "METRICS"); [discriminate|].
  destruct (unpack2 (split_all " "%char (strip text))) as [[meth url]|e]; [|discriminate].
  destruct (negb (String.eqb meth "GET")); [discriminate|].
  destruct (unpack2 (split_once "/"%char url)); [exact id|discriminate].
Qed.

(** X14: after a request that missed the cache and was answered OK by the
    origin, the same request is served from the cache: hit counted, no
    origin contact, the same data.  The TTL cache needs the second read
    within the entry's lifetime; the LRU cache needs a consistent state
    within a capacity of at least one. *)
Theorem proxy_hit_after_miss (loads : string -> string + json) (dumps : json -> string)
  (estr : exc -> string) (p p' : ProxyNode) (text : string)
  (now_get now_set now_get2 now_set2 : Z) (reply reply2 : origin_reply)
  (d : json) (tr : list pn_event)
  (Hkeep : match pn_cache p with
           | CacheTTL t => now_get2 <= now_set + ttl t * usec_per_sec
           | CacheLRU l => lru_inv l /\ lru_bound l /\ 1 <= capacity l
           end)
  (Hf : fetch_from_origin loads reply = Ret (d, "OK"))
  (Hhc : handle_connection loads dumps estr p (RecvText text) now_get now_set reply
         = (p', tr, Ret tt))
  (Hmiss : In EvRecordMiss tr) :
  exists key p'',
    handle_connection loads dumps estr p' (RecvText text) now_get2 now_set2 reply2
      = (p'', [EvRecordRequest; EvCacheGet key; EvRecordHit;
               EvSend (build_response dumps p'' "OK" d true)], Ret tt)
    /\ pn_metrics p'' = record_hit (record_request (pn_metrics p')).
Proof.
  unfold handle_connection in Hhc.
  destruct (parse_request dumps estr p (RecvText text)) as [msg|[r k]] eqn:Hp.
  { injection Hhc as _ <-. simpl in Hmiss. destruct Hmiss as [H|[]]. discriminate. }
  set (key := build_cache_key r k) in *.
  destruct (cache_get now_get key (pn_cache p)) as [c1 [[v1 [|]]|e1]] eqn:Hcg.
  - injection Hhc as _ <-. simpl in Hmiss.
    destruct Hmiss as [H|[H|[H|[H|[]]]]]; discriminate.
  - rewrite Hf in Hhc. simpl in Hhc.
    destruct (cache_set now_set key d c1) as [c3 [u|e3]] eqn:Hcs; [|discriminate].
    injection Hhc as <- _.
    (* the entry is there for the second read *)
    assert (Hget2 : exists c4, cache_get now_get2 key c3 = (c4, Ret (d, true))).
    { destruct (pn_cache p) as [t|l] eqn:Hc.
      - simpl in Hcg. destruct (ttl_get now_get key t) as [r1 t1] eqn:Htg.
        injection Hcg as <- _.
        assert (Ht1 : ttl t1 = ttl t).
        { unfold ttl_get in Htg. destruct (ttl_store t !! key) as [[x e]|];
            [destruct (Z.ltb e now_get)|]; injection Htg as _ <-; reflexivity. }
        simpl in Hcs. injection Hcs as <- _.
        simpl. unfold ttl_get. simpl. rewrite lookup_insert_eq.
        rewrite Ht1. destruct (Z.ltb_spec (now_set + ttl t * usec_per_sec) now_get2); [lia|].
        eexists. reflexivity.
      - destruct Hkeep as [Hinv [Hb Hcap]].
        simpl in Hcg. rewrite (LRU.get_spec key l Hinv) in Hcg.
        destruct (lru_store l !! key) as [n|] eqn:Hk; [discriminate|].
        injection Hcg as <- _.
        destruct (lru_set_hit key d l Hinv Hb Hcap) as [l' [Hs [Hk' [Hinv' _]]]].
        simpl in Hcs. rewrite Hs in Hcs. injection Hcs as <- _.
        simpl. rewrite (LRU.get_spec key l' Hinv'), Hk'. eexists. reflexivity. }
    destruct Hget2 as [c4 Hget2].
    eexists key, _. unfold handle_connection.
    rewrite (parse_request_inr dumps estr p _ (RecvText text) (r, k) Hp).
    fold key. simpl pn_cache. rewrite Hget2. split; reflexivity.
  - discriminate.
Qed.

(** ** Witnesses *)

Lemma lru_init_inv (cap : Z) : lru_inv (lru_init cap).
Proof.
  split; [constructor|]. split; [|reflexivity].
  intros k. simpl. rewrite lookup_empty. reflexivity.
Qed.

Lemma lru_init_bound (cap : Z) : 0 <= cap -> lru_bound (lru_init cap).
Proof. intros H. unfold lru_bound. simpl. lia. Qed.


Lemma lru_a1_ok : lru_inv lru_a1 /\ lru_bound lru_a1 /\ 1 <= capacity lru_a1.
Proof.
  destruct (lru_set_hit "a" (JInt 1) (lru_init 2) (lru_init_inv 2)
              (lru_init_bound 2 ltac:(lia)) ltac:(simpl; lia))
    as [c' [Hs [_ [Hinv [Hb [Hc _]]]]]].
  unfold lru_a1. rewrite Hs. simpl. split; [exact Hinv|]. split; [exact Hb|].
  rewrite Hc. simpl. lia.
Qed.

Lemma origin_stops_on_malformed_witness :
  origin_handle dumps_stub (loads_table []) (RecvText "GETusers/1") = Raise ValueError
  /\ origin_handle dumps_stub (loads_table []) (RecvText (build_request "users")) = Raise ValueError.
Proof.
  destruct (origin_stops_on_malformed dumps_stub (loads_table []) "GETusers/1" "users")
    as [H1 H2].
  split; [apply H1; reflexivity|apply H2; [reflexivity|discriminate|reflexivity]].
Defined.

Lemma lru_set_then_get_witness :
  exists c', lru_set "b" (JInt 2) lru_a1 = (c', Ret tt)
    /\ exists c'', lru_get "b" c' = (c'', Ret (JInt 2, true)).
Proof.
  destruct lru_a1_ok as [Hinv [Hb Hcap]].
  destruct (lru_set_then_get "b" (JInt 2) lru_a1 Hinv Hb Hcap) as [c' [Hs [Hg _]]].
  exists c'. split; [exact Hs|exact Hg].
Defined.

Lemma lru_get_promotes_witness :
  exists c', lru_get "a" lru_a1 = (c', Ret (JInt 1, true))
    /\ lru_store c' = lru_store lru_a1.
Proof.
  pose proof (lru_get_promotes "a" lru_a1 (proj1 lru_a1_ok)) as H.
  vm_compute in H. destruct H as [c' [Hg [Hs _]]].
  exists c'. split; [exact Hg|exact Hs].
Defined.

Lemma lru_set_existing_witness :
  exists c', lru_set "a" (JInt 5) lru_a1 = (c', Ret tt) /\ lru_size c' = lru_size lru_a1.
Proof.
  destruct lru_a1_ok as [Hinv [Hb _]].
  destruct (lru_set_existing "a" (JInt 5) lru_a1 Hinv Hb ltac:(vm_compute; eauto))
    as [c' [Hs [_ Hsz]]].
  exists c'. split; [exact Hs|exact Hsz].
Defined.

Lemma lru_nonpositive_capacity_empty_witness :
  exists log, lru_run (lru_init 0) [] [LSet "a" (JInt 1); LGet "a"] = Some (lru_init 0, log).
Proof.
  exact (proj1 (lru_nonpositive_capacity_empty 0 [LSet "a" (JInt 1); LGet "a"] ltac:(lia))).
Defined.

Lemma poll_proxies_complete_witness :
  exists lb', poll_proxies metrics_loads (lb_init [P1; P2] "round_robin") replies_round1
                [P1; P2] = (lb', Ret tt)
    /\ lb_proxy_stats lb' !! P2 = Some (snapshot 1).
Proof.
  destruct (poll_proxies_complete metrics_loads (lb_init [P1; P2] "round_robin")
              replies_round1 [P1; P2]
              ltac:(intros p [<-|[<-|[]]]; vm_compute; eauto)
              ltac:(intros p [<-|[<-|[]]]; exists (snapshot 1); vm_compute; reflexivity))
    as [lb' [Hrun [_ [_ [_ [Hin _]]]]]].
  exists lb'. split; [exact Hrun|].
  destruct (Hin P2 (snapshot 1) ltac:(right; left; reflexivity)
              ltac:(vm_compute; reflexivity)) as [H _].
  exact H.
Defined.

Lemma lb_metrics_readonly_witness :
  exists msg, handle_client metrics_loads dumps_stub (lb_init [P1; P2] "round_robin")
                (RecvText ("METRICS" +s+ newline)) (PConnectFail "refused")
              = (lb_init [P1; P2] "round_robin", Ret (Some msg)).
Proof.
  destruct (lb_metrics_readonly metrics_loads dumps_stub (lb_init [P1; P2] "round_robin")
              ("METRICS" +s+ newline) (PConnectFail "refused")
              ltac:(vm_compute; reflexivity)
              ltac:(intros p [<-|[<-|[]]]; vm_compute; split; eauto))
    as [msg [H _]].
  exists msg. exact H.
Defined.

Lemma forward_request_health_witness :
  exists nodes' s,
    forward_request metrics_loads dumps_stub (lb_init [P1] "round_robin") P1
      (PConnectFail "refused")
    = (lb_with_nm (lb_init [P1] "round_robin") (mkNodeManager [P1] nodes'), Ret s)
    /\ nodes' !! P1 = Some (mkHealth true 1).
Proof.
  destruct (forward_request_health metrics_loads dumps_stub (lb_init [P1] "round_robin") P1
              (PConnectFail "refused") (mkHealth true 0)
              ltac:(vm_compute; reflexivity) ltac:(discriminate))
    as [nodes' [s [H [_ [_ Hf]]]]].
  exists nodes', s. split; [exact H|]. rewrite Hf by (left; eauto). reflexivity.
Defined.

Lemma ttl_size_accounting_witness :
  ttl_size (ttl_set 0 "users/1" (JInt 1) (ttl_init 30)) = S (ttl_size (ttl_init 30)).
Proof. exact (proj1 (ttl_size_accounting 0 0 "users/1" (JInt 1) (ttl_init 30))). Defined.

Lemma report_hit_rate_bounds_witness :
  exists q, getitem (report (mkProxyMetrics 4 1 3 3 "2024-05-01T12:00:00")) "hit_rate"
            = Ret (JFloat q) /\ (0 <= q /\ q <= 1)%Q.
Proof.
  destruct (report_hit_rate_bounds (mkProxyMetrics 4 1 3 3 "2024-05-01T12:00:00")
              ltac:(simpl; lia) ltac:(simpl; lia)) as [[H _]|[_ H]];
    [revert H; vm_compute; discriminate|exact H].
Defined.

Lemma origin_file_collision_witness :
  origin_handle dumps_stub (loads_table []) (RecvText (build_request "users/1"))
  = origin_handle dumps_stub (loads_table []) (RecvText (build_request "user/s1"))
  /\ "users/1" <> "user/s1".
Proof.
  destruct (origin_file_collision dumps_stub (loads_table []) "users" "1" "user" "s1"
              eq_refl eq_refl eq_refl eq_refl eq_refl) as [H1 H2].
  split; [exact H1|]. exact (H2 ltac:(discriminate)).
Defined.



Lemma proxy_hit_after_miss_witness :
  exists key p'',
    handle_connection origin_ok_loads dumps_stub exc_name (fst (fst hc_miss)) req_example
      5 5 OConnectFail
    = (p'', [EvRecordRequest; EvCacheGet key; EvRecordHit;
             EvSend (build_response dumps_stub p'' "OK" (JInt 7) true)], Ret tt).
Proof.
  destruct (proxy_hit_after_miss origin_ok_loads dumps_stub exc_name pn_example
              (fst (fst hc_miss)) "GET users/1" 0 0 5 5
              (OReadLine ("ORIGIN" +s+ newline)) OConnectFail (JInt 7) (snd (fst hc_miss))
              ltac:(simpl; unfold usec_per_sec; lia) ltac:(vm_compute; reflexivity)
              ltac:(vm_compute; reflexivity) ltac:(vm_compute; tauto))
    as [key [p'' [H _]]].
  exists key, p''. exact H.
Defined.
